(** * Image customiser: size controls, cart button and the image session.

    A shallow embedding of the React components [SizeControls],
    [AddToCartButton] and [ProductCustomizer].  JavaScript numbers are read
    as exact rationals ([Q]): NaN, the infinities and the rounding of binary64
    arithmetic are outside the model.  Strings stay strings, [null] is [None].

    An [async] handler is cut at its [await]s.  The part before the first
    [await] runs when the handler is invoked; each later part runs when the
    promise it waits for settles, which the environment reports as an event. *)

From Stdlib Require Import QArith Qround Qminmax Qabs ZArith Lia List String Bool.
From Stdlib Require Import DecimalString.
From Stdlib Require Import Lqa.
Import ListNotations.
Local Open Scope Q_scope.

(** ** JavaScript values and numbers *)

Module Js.

(** The few dynamically typed values that reach the components as props. *)
Inductive value :=
| Null
| Undefined
| Num (n : Q)
| Str (s : string).

(** [x > y] on numbers. *)
Definition gt (x y : Q) : bool := negb (Qle_bool x y).
Definition lt (x y : Q) : bool := negb (Qle_bool y x).
Definition ge (x y : Q) : bool := Qle_bool y x.
Definition le (x y : Q) : bool := Qle_bool x y.

Definition str_nonempty (s : string) : bool :=
  match s with EmptyString => false | _ => true end.

(** Truthiness, as used by [&&], [||] and [if]. *)
Definition truthy (v : value) : bool :=
  match v with
  | Null | Undefined => false
  | Num n => negb (Qeq_bool n 0)
  | Str s => str_nonempty s
  end.

(** Truthiness of a nullable string ([null] or a string). *)
Definition truthy_str (o : option string) : bool :=
  match o with Some s => str_nonempty s | None => false end.

(** [s.startsWith(p)] *)
Definition startsWith (p s : string) : bool := String.prefix p s.

(** [x || null] on a nullable string. *)
Definition or_null (o : option string) : option string :=
  if truthy_str o then o else None.

(** The integer [n] with [n / 100] nearest to a non-negative [x]; the
    larger one on a tie (Number.prototype.toFixed, step "pick the larger n"). *)
Definition nearest_hundredth (x : Q) : Z := Qfloor (x * 100 + (1 # 2)).

(** [+(x).toFixed(2)]: the sign is split off first, as toFixed does. *)
Definition toFixed2 (x : Q) : Q :=
  if lt x 0 then - (nearest_hundredth (- x) # 100)
  else nearest_hundredth x # 100.

End Js.

(** ** SizeControls.jsx *)

Module SizeControls.

Definition STEP_INCHES : Q := 1.
Definition MIN_SIZE : Q := 1 # 2.
Definition MAX_SIZE : Q := 45 # 2.

(** Clamp a value to [MIN_SIZE, MAX_SIZE] and round to 2 decimals. *)
Definition clamp (v : Q) : Q :=
  Js.toFixed2 (Qmin MAX_SIZE (Qmax MIN_SIZE v)).

(** The [width] and [height] props; [setWidth]/[setHeight] write them. *)
Record Size := { width : Q; height : Q }.

Definition setWidth (v : Q) (s : Size) : Size :=
  {| width := v; height := height s |}.
Definition setHeight (v : Q) (s : Size) : Size :=
  {| width := width s; height := v |}.

Definition aspectRatio (s : Size) : Q :=
  if Js.gt (width s) 0 then height s / width s else 1.

Definition updateWidthAndHeight (newWidth newHeight : Q) (s : Size) : Size :=
  let w := clamp newWidth in
  let h := clamp newHeight in
  setHeight h (setWidth w s).

(** Shared tail of the width steppers. *)
Definition fitHeight (newWidth : Q) (s : Size) : Size :=
  let newHeight := newWidth * aspectRatio s in
  if Js.gt newHeight MAX_SIZE then
    updateWidthAndHeight (MAX_SIZE / aspectRatio s) MAX_SIZE s
  else if Js.lt newHeight MIN_SIZE then
    updateWidthAndHeight (MIN_SIZE / aspectRatio s) MIN_SIZE s
  else updateWidthAndHeight newWidth newHeight s.

(** Shared tail of the height steppers. *)
Definition fitWidth (newHeight : Q) (s : Size) : Size :=
  let newWidth := newHeight / aspectRatio s in
  if Js.gt newWidth MAX_SIZE then
    updateWidthAndHeight MAX_SIZE (MAX_SIZE * aspectRatio s) s
  else if Js.lt newWidth MIN_SIZE then
    updateWidthAndHeight MIN_SIZE (MIN_SIZE * aspectRatio s) s
  else updateWidthAndHeight newWidth newHeight s.

Definition incrementWidth (s : Size) : Size :=
  fitHeight (Qmin MAX_SIZE (Js.toFixed2 (width s + STEP_INCHES))) s.

Definition decrementWidth (s : Size) : Size :=
  fitHeight (Qmax MIN_SIZE (Js.toFixed2 (width s - STEP_INCHES))) s.

Definition incrementHeight (s : Size) : Size :=
  fitWidth (Qmin MAX_SIZE (Js.toFixed2 (height s + STEP_INCHES))) s.

Definition decrementHeight (s : Size) : Size :=
  fitWidth (Qmax MIN_SIZE (Js.toFixed2 (height s - STEP_INCHES))) s.

(** What a change event of the number input carries: the text parses to a
    number, or it is the empty string, or it is some other text
    ([parseFloat] gives NaN in the last two cases). *)
Inductive input :=
| Parsed (value : Q)
| Empty
| Garbage.

(** The guard [!isNaN(value) && value >= MIN_SIZE && value <= MAX_SIZE]. *)
Definition accepted (e : input) : bool :=
  match e with
  | Parsed value => Js.ge value MIN_SIZE && Js.le value MAX_SIZE
  | _ => false
  end.

Definition handleWidthChange (e : input) (s : Size) : Size :=
  match e with
  | Parsed value =>
      if accepted e then
        let newHeight := clamp (value * aspectRatio s) in
        setHeight newHeight (setWidth (Js.toFixed2 value) s)
      else s
  | Empty => setWidth MIN_SIZE s
  | Garbage => s
  end.

Definition handleHeightChange (e : input) (s : Size) : Size :=
  match e with
  | Parsed value =>
      if accepted e then
        let newWidth := clamp (value / aspectRatio s) in
        setHeight (Js.toFixed2 value) (setWidth newWidth s)
      else s
  | Empty => setHeight MIN_SIZE s
  | Garbage => s
  end.

(** The user actions of the stepper row. *)
Inductive action :=
| IncW | DecW | IncH | DecH
| TypeW (e : input)
| TypeH (e : input).

Definition perform (a : action) (s : Size) : Size :=
  match a with
  | IncW => incrementWidth s
  | DecW => decrementWidth s
  | IncH => incrementHeight s
  | DecH => decrementHeight s
  | TypeW e => handleWidthChange e s
  | TypeH e => handleHeightChange e s
  end.

(** Steppers always act; a typed value acts when the guard accepts it. *)
Definition effective (a : action) : bool :=
  match a with
  | TypeW e | TypeH e => accepted e
  | _ => true
  end.

Definition in_range (v : Q) : Prop := MIN_SIZE <= v <= MAX_SIZE.
Definition two_decimals (v : Q) : Prop := exists k : Z, v == k # 100.

End SizeControls.

(** ** AddToCartButton.jsx *)

Module AddToCartButton.

Record Props := {
  variantId : Js.value;
  imageUrl : Js.value;
  width : Q;
  height : Q;
  preCut : bool;
  quantity : Z;
  disabled : bool
}.

Record State := {
  isLoading : bool;
  error : option string;
  success : bool
}.

(** The body posted to [/cart/add.js]. *)
Record CartRequest := {
  id : Js.value;
  req_quantity : Z;
  _Area_x : Q;
  _Area_y : Q;
  _PreCut : string;
  CustomImage : Js.value
}.

Definition isServerUrl (p : Props) : bool :=
  match imageUrl p with
  | Js.Str s => Js.str_nonempty s && negb (Js.startsWith "blob:" s)
  | _ => false
  end.

Definition isValid (p : Props) : bool :=
  isServerUrl p && Js.gt (width p) 0 && Js.gt (height p) 0
  && Js.truthy (variantId p).

(** The synchronous part of [addToCart], up to the [await fetch]: the new
    component state and the requests issued. *)
Definition addToCart (p : Props) (s : State) : State * list CartRequest :=
  if negb (isValid p) || isLoading s then (s, [])
  else
    ({| isLoading := true; error := None; success := false |},
     [ {| id := variantId p;
          req_quantity := quantity p;
          _Area_x := Js.toFixed2 (width p);
          _Area_y := Js.toFixed2 (height p);
          _PreCut := if preCut p then "Yes" else "No";
          CustomImage := imageUrl p |} ]).

End AddToCartButton.

(** ** ProductCustomizer.jsx: data *)

Module ProductCustomizer.

Definition Url := string.

(** A [File] or [Blob]; only its identity matters here. *)
Definition Blob := string.

Definition API_BASE : string := "https://highquality.allgovjobs.com/backend".
Definition REMOVE_BG_ENDPOINT : string :=
  (API_BASE ++ "/api/images/remove-bg")%string.
Definition ENHANCE_ENDPOINT : string :=
  (API_BASE ++ "/api/images/enhance")%string.

(** Build a full server URL from a path (avoids double slashes).
    [API_BASE] has no trailing slash, so the [replace] leaves it as it is. *)
Definition buildServerUrl (path : option string) : option Url :=
  match path with
  | None => None
  | Some s =>
      if negb (Js.str_nonempty s) then None
      else
        let p := if Js.startsWith "/" s
                 then String.substring 1 (String.length s - 1) s
                 else s in
        Some (API_BASE ++ "/" ++ p)%string
  end.

Definition DIMENSION_MIN : Q := 1 # 2.
Definition DIMENSION_MAX : Q := 45 # 2.
Definition DPI : Q := 300.

(** One axis of the [onload] callback of [getImageDimensionsInInches]. *)
Definition inches (natural : N) : Q :=
  let xInches := inject_Z (Z.of_N natural) / DPI in
  Qmin DIMENSION_MAX (Qmax DIMENSION_MIN (Js.toFixed2 xInches)).

(** The [useState] cells of the component that the handlers touch. *)
Record State := {
  imageUrl : option Url;
  width : Q;
  height : Q;
  currentImageBlob : option Blob;
  originalImageBlob : option Blob;
  processedImageBlob : option Blob;
  originalImageUrl : option Url;
  processedImageUrl : option Url;
  originalServerUrl : option Url;
  processedServerUrl : option Url;
  finalImageUrl : option Url;
  loadingRemoveBg : bool;
  loadingEnhance : bool;
  removeBgEnabled : bool
}.

(** The [useRef] cells. *)
Record Refs := {
  currentBlobUrlRef : option Url;
  abortControllerRef : option nat;
  originalBlobUrlRef : option Url;
  processedBlobUrlRef : option Url
}.

Definition initialState : State := {|
  imageUrl := None; width := 10; height := 10;
  currentImageBlob := None; originalImageBlob := None;
  processedImageBlob := None;
  originalImageUrl := None; processedImageUrl := None;
  originalServerUrl := None; processedServerUrl := None;
  finalImageUrl := None;
  loadingRemoveBg := false; loadingEnhance := false;
  removeBgEnabled := true |}.

Definition initialRefs : Refs := {|
  currentBlobUrlRef := None; abortControllerRef := None;
  originalBlobUrlRef := None; processedBlobUrlRef := None |}.

(** A response as the handlers see it before the body is read. *)
Record Response := {
  status : Z;
  headers : list (string * string)
}.

Fixpoint headers_get (name : string) (hs : list (string * string))
  : option string :=
  match hs with
  | [] => None
  | (k, v) :: rest => if String.eqb k name then Some v else headers_get name rest
  end.

(** Which handler a suspended invocation belongs to, and at which [await]
    it is suspended. *)
Inductive Origin := FromUpload | FromRemoveBg | FromEnhance | FromToggle.
Inductive Stage := AwaitFetch | AwaitBlob.

Record Call := {
  origin : Origin;
  stage : Stage;
  signal : nat;        (* the AbortController whose signal the fetch got *)
  aborted : bool       (* that signal has fired; the rejection is queued *)
}.

(** What the component does to the world outside its state. *)
Inductive effect :=
| Revoke (u : Url)
| Create (u : Url) (b : Blob)
| Fetch (endpoint : string) (image : Blob) (signal : nat)
| Abort (controller : nat)
| LoadImage (u : Url)
| Warn (msg : string)
| Error (msg : string).

Record World := {
  st : State;
  refs : Refs;
  calls : list Call;      (* handler invocations suspended on the network *)
  reads : list Url;       (* images being decoded for their dimensions *)
  controllers : nat;      (* AbortControllers allocated so far *)
  objectUrls : nat;       (* object URLs minted here so far *)
  log : list effect       (* effects, oldest first *)
}.

Definition initialWorld : World := {|
  st := initialState; refs := initialRefs; calls := []; reads := [];
  controllers := 0; objectUrls := 0; log := [] |}.

(** *** State cells: one setter each *)

Definition with_imageUrl v s := Build_State
  v (width s) (height s) (currentImageBlob s) (originalImageBlob s)
  (processedImageBlob s) (originalImageUrl s) (processedImageUrl s)
  (originalServerUrl s) (processedServerUrl s) (finalImageUrl s)
  (loadingRemoveBg s) (loadingEnhance s) (removeBgEnabled s).
Definition with_width v s := Build_State
  (imageUrl s) v (height s) (currentImageBlob s) (originalImageBlob s)
  (processedImageBlob s) (originalImageUrl s) (processedImageUrl s)
  (originalServerUrl s) (processedServerUrl s) (finalImageUrl s)
  (loadingRemoveBg s) (loadingEnhance s) (removeBgEnabled s).
Definition with_height v s := Build_State
  (imageUrl s) (width s) v (currentImageBlob s) (originalImageBlob s)
  (processedImageBlob s) (originalImageUrl s) (processedImageUrl s)
  (originalServerUrl s) (processedServerUrl s) (finalImageUrl s)
  (loadingRemoveBg s) (loadingEnhance s) (removeBgEnabled s).
Definition with_currentImageBlob v s := Build_State
  (imageUrl s) (width s) (height s) v (originalImageBlob s)
  (processedImageBlob s) (originalImageUrl s) (processedImageUrl s)
  (originalServerUrl s) (processedServerUrl s) (finalImageUrl s)
  (loadingRemoveBg s) (loadingEnhance s) (removeBgEnabled s).
Definition with_originalImageBlob v s := Build_State
  (imageUrl s) (width s) (height s) (currentImageBlob s) v
  (processedImageBlob s) (originalImageUrl s) (processedImageUrl s)
  (originalServerUrl s) (processedServerUrl s) (finalImageUrl s)
  (loadingRemoveBg s) (loadingEnhance s) (removeBgEnabled s).
Definition with_processedImageBlob v s := Build_State
  (imageUrl s) (width s) (height s) (currentImageBlob s) (originalImageBlob s)
  v (originalImageUrl s) (processedImageUrl s)
  (originalServerUrl s) (processedServerUrl s) (finalImageUrl s)
  (loadingRemoveBg s) (loadingEnhance s) (removeBgEnabled s).
Definition with_originalImageUrl v s := Build_State
  (imageUrl s) (width s) (height s) (currentImageBlob s) (originalImageBlob s)
  (processedImageBlob s) v (processedImageUrl s)
  (originalServerUrl s) (processedServerUrl s) (finalImageUrl s)
  (loadingRemoveBg s) (loadingEnhance s) (removeBgEnabled s).
Definition with_processedImageUrl v s := Build_State
  (imageUrl s) (width s) (height s) (currentImageBlob s) (originalImageBlob s)
  (processedImageBlob s) (originalImageUrl s) v
  (originalServerUrl s) (processedServerUrl s) (finalImageUrl s)
  (loadingRemoveBg s) (loadingEnhance s) (removeBgEnabled s).
Definition with_originalServerUrl v s := Build_State
  (imageUrl s) (width s) (height s) (currentImageBlob s) (originalImageBlob s)
  (processedImageBlob s) (originalImageUrl s) (processedImageUrl s)
  v (processedServerUrl s) (finalImageUrl s)
  (loadingRemoveBg s) (loadingEnhance s) (removeBgEnabled s).
Definition with_processedServerUrl v s := Build_State
  (imageUrl s) (width s) (height s) (currentImageBlob s) (originalImageBlob s)
  (processedImageBlob s) (originalImageUrl s) (processedImageUrl s)
  (originalServerUrl s) v (finalImageUrl s)
  (loadingRemoveBg s) (loadingEnhance s) (removeBgEnabled s).
Definition with_finalImageUrl v s := Build_State
  (imageUrl s) (width s) (height s) (currentImageBlob s) (originalImageBlob s)
  (processedImageBlob s) (originalImageUrl s) (processedImageUrl s)
  (originalServerUrl s) (processedServerUrl s) v
  (loadingRemoveBg s) (loadingEnhance s) (removeBgEnabled s).
Definition with_loadingRemoveBg v s := Build_State
  (imageUrl s) (width s) (height s) (currentImageBlob s) (originalImageBlob s)
  (processedImageBlob s) (originalImageUrl s) (processedImageUrl s)
  (originalServerUrl s) (processedServerUrl s) (finalImageUrl s)
  v (loadingEnhance s) (removeBgEnabled s).
Definition with_loadingEnhance v s := Build_State
  (imageUrl s) (width s) (height s) (currentImageBlob s) (originalImageBlob s)
  (processedImageBlob s) (originalImageUrl s) (processedImageUrl s)
  (originalServerUrl s) (processedServerUrl s) (finalImageUrl s)
  (loadingRemoveBg s) v (removeBgEnabled s).
Definition with_removeBgEnabled v s := Build_State
  (imageUrl s) (width s) (height s) (currentImageBlob s) (originalImageBlob s)
  (processedImageBlob s) (originalImageUrl s) (processedImageUrl s)
  (originalServerUrl s) (processedServerUrl s) (finalImageUrl s)
  (loadingRemoveBg s) (loadingEnhance s) v.

Definition with_currentBlobUrlRef v r := Build_Refs
  v (abortControllerRef r) (originalBlobUrlRef r) (processedBlobUrlRef r).
Definition with_abortControllerRef v r := Build_Refs
  (currentBlobUrlRef r) v (originalBlobUrlRef r) (processedBlobUrlRef r).
Definition with_originalBlobUrlRef v r := Build_Refs
  (currentBlobUrlRef r) (abortControllerRef r) v (processedBlobUrlRef r).
Definition with_processedBlobUrlRef v r := Build_Refs
  (currentBlobUrlRef r) (abortControllerRef r) (originalBlobUrlRef r) v.

Definition on_st (f : State -> State) (w : World) : World := Build_World
  (f (st w)) (refs w) (calls w) (reads w) (controllers w) (objectUrls w) (log w).
Definition on_refs (f : Refs -> Refs) (w : World) : World := Build_World
  (st w) (f (refs w)) (calls w) (reads w) (controllers w) (objectUrls w) (log w).
Definition on_calls (f : list Call -> list Call) (w : World) : World := Build_World
  (st w) (refs w) (f (calls w)) (reads w) (controllers w) (objectUrls w) (log w).
Definition on_reads (f : list Url -> list Url) (w : World) : World := Build_World
  (st w) (refs w) (calls w) (f (reads w)) (controllers w) (objectUrls w) (log w).
Definition emit (e : effect) (w : World) : World := Build_World
  (st w) (refs w) (calls w) (reads w) (controllers w) (objectUrls w)
  (log w ++ [e]).

(** *** Handlers as state transformers

    A handler runs against the world; [x <- m ;; k] sequences two steps. *)

Definition M (A : Type) : Type := World -> A * World.

Definition ret {A} (a : A) : M A := fun w => (a, w).
Definition bind {A B} (m : M A) (k : A -> M B) : M B :=
  fun w => let r := m w in k (fst r) (snd r).
Definition exec {A} (m : M A) (w : World) : World := snd (m w).

Notation "x <- m ;; k" := (bind m (fun x => k))
  (at level 61, m at next level, right associativity).
Notation "m ;; k" := (bind m (fun _ => k))
  (at level 61, right associativity).

Definition modify (f : World -> World) : M unit := fun w => (tt, f w).
Definition gets {A} (f : World -> A) : M A := fun w => (f w, w).
Definition when (b : bool) (m : M unit) : M unit := if b then m else ret tt.

(** [setX(v)] for the state cell written by [wr], [xRef.current = v] for a ref. *)
Definition set {V} (wr : V -> State -> State) (v : V) : M unit :=
  modify (on_st (wr v)).
Definition assign {V} (wr : V -> Refs -> Refs) (v : V) : M unit :=
  modify (on_refs (wr v)).

(** [x && x.startsWith("blob:")] *)
Definition isBlobUrl (o : option Url) : bool :=
  match o with
  | Some u => Js.str_nonempty u && Js.startsWith "blob:" u
  | None => false
  end.

(** [r === url] for a ref [r] that may hold [null]. *)
Definition is_url (o : option Url) (url : Url) : bool :=
  match o with
  | Some u => String.eqb u url
  | None => false
  end.

Definition revokeObjectURL (o : option Url) : M unit :=
  match o with
  | Some u => modify (emit (Revoke u))
  | None => ret tt
  end.

Definition string_of_nat (n : nat) : string :=
  NilEmpty.string_of_uint (Nat.to_uint n).

(** The URL the next [createObjectURL] hands out. *)
Definition fresh_url (w : World) : Url :=
  ("blob:" ++ string_of_nat (objectUrls w))%string.

(** [URL.createObjectURL(b)]: a URL that was never handed out before. *)
Definition createObjectURL (b : Blob) : M Url := fun w =>
  let u := fresh_url w in
  (u, emit (Create u b)
        (Build_World (st w) (refs w) (calls w) (reads w) (controllers w)
           (S (objectUrls w)) (log w))).

Definition console_warn (msg : string) : M unit := modify (emit (Warn msg)).
Definition console_error (msg : string) : M unit := modify (emit (Error msg)).

(** [getImageDimensionsInInches(url).then(..).catch(..)]: the image starts
    loading; [onload]/[onerror] come back later as events. *)
Definition getImageDimensionsInInches (url : Url) : M unit :=
  modify (fun w => emit (LoadImage url) (on_reads (fun l => l ++ [url]) w)).

Definition updateDimensionsFromImageUrl (url : option Url) : M unit :=
  match url with
  | Some u => when (Js.str_nonempty u) (getImageDimensionsInInches u)
  | None => ret tt
  end.

(** The signal of controller [c] fires: a call that waits on it is rejected
    with AbortError, at whichever [await] it is suspended. *)
Definition mark_aborted (c : nat) (k : Call) : Call :=
  if Nat.eqb (signal k) c
  then {| origin := origin k; stage := stage k; signal := signal k;
          aborted := true |}
  else k.

(** [abortControllerRef.current?.abort()] *)
Definition abortCurrent : M unit := fun w =>
  match abortControllerRef (refs w) with
  | None => (tt, w)
  | Some c => (tt, emit (Abort c) (on_calls (map (mark_aborted c)) w))
  end.

(** [abortControllerRef.current = new AbortController()] *)
Definition newAbortController : M nat := fun w =>
  let c := controllers w in
  (c, on_refs (with_abortControllerRef (Some c))
        (Build_World (st w) (refs w) (calls w) (reads w) (S c)
           (objectUrls w) (log w))).

(** [await fetch(endpoint, { method: "POST", body: form, signal })]: the
    request leaves and the handler is suspended. *)
Definition fetch (endpoint : string) (image : Blob) (sig : nat) (o : Origin)
  : M unit :=
  modify (fun w =>
    emit (Fetch endpoint image sig)
      (on_calls (fun l => l ++ [ {| origin := o; stage := AwaitFetch;
                                    signal := sig; aborted := false |} ]) w)).

Definition loadingFlag (o : Origin) : bool -> State -> State :=
  match o with
  | FromEnhance => with_loadingEnhance
  | _ => with_loadingRemoveBg
  end.

Definition endpointOf (o : Origin) : string :=
  match o with
  | FromEnhance => ENHANCE_ENDPOINT
  | _ => REMOVE_BG_ENDPOINT
  end.

(** The four call sites ([handleImageUpload] l.403-415, [handleRemoveBg]
    l.472-484, [handleEnhance] l.531-543, [handleToggleRemoveBg] l.645-657)
    open the same way: abort, new controller, loading flag, request. *)
Definition startProcessing (o : Origin) (image : Blob) : M unit :=
  abortCurrent ;;
  sig <- newAbortController ;;
  set (loadingFlag o) true ;;
  fetch (endpointOf o) image sig o.

Definition processedLinkHeader (o : Origin) : string :=
  match o with
  | FromEnhance => "X-AutoEnhance-Link"
  | _ => "X-Image-Link"
  end.

(** Between [await fetch] and [await res.blob()]: the two link headers are
    stored (l.417-435, 486-497, 545-556, 659-677).  Nothing looks at
    [res.ok] or [res.status]. *)
Definition onResponse (o : Origin) (res : Response) : M unit :=
  let serverLink := headers_get (processedLinkHeader o) (headers res) in
  let originalLink := headers_get "X-Original-Image-Link" (headers res) in
  when (Js.truthy_str serverLink)
    (set with_processedServerUrl (buildServerUrl serverLink) ;;
     set with_finalImageUrl (buildServerUrl serverLink)) ;;
  when (Js.truthy_str originalLink)
    (set with_originalServerUrl (buildServerUrl originalLink)).

(** After [await res.blob()], up to the end of the [try] block: l.438-450
    for the upload, l.680-692 for the toggle, l.500-517 for Remove BG and
    l.559-576 for Enhance, which alone skips the dimension update. *)
Definition onBlob (o : Origin) (processedBlob : Blob) : M unit :=
  match o with
  | FromUpload | FromToggle =>
      set with_processedImageBlob (Some processedBlob) ;;
      newDisplayUrl <- createObjectURL processedBlob ;;
      set with_processedImageUrl (Some newDisplayUrl) ;;
      assign with_processedBlobUrlRef (Some newDisplayUrl) ;;
      assign with_currentBlobUrlRef (Some newDisplayUrl) ;;
      set with_imageUrl (Some newDisplayUrl) ;;
      set with_currentImageBlob (Some processedBlob) ;;
      updateDimensionsFromImageUrl (Some newDisplayUrl)
  | FromRemoveBg | FromEnhance =>
      set with_processedImageBlob (Some processedBlob) ;;
      set with_currentImageBlob (Some processedBlob) ;;
      newDisplayUrl <- createObjectURL processedBlob ;;
      old <- gets (fun w => processedBlobUrlRef (refs w)) ;;
      when (isBlobUrl old) (revokeObjectURL old) ;;
      assign with_processedBlobUrlRef (Some newDisplayUrl) ;;
      set with_processedImageUrl (Some newDisplayUrl) ;;
      cur <- gets (fun w => currentBlobUrlRef (refs w)) ;;
      when (isBlobUrl cur) (revokeObjectURL cur) ;;
      assign with_currentBlobUrlRef (Some newDisplayUrl) ;;
      set with_imageUrl (Some newDisplayUrl) ;;
      match o with
      | FromRemoveBg => updateDimensionsFromImageUrl (Some newDisplayUrl)
      | _ => ret tt
      end
  end.

Definition failureMessage (o : Origin) : string :=
  match o with
  | FromUpload => "Auto remove-bg failed:"
  | FromRemoveBg => "Remove background failed:"
  | FromEnhance => "Enhance image failed:"
  | FromToggle => "Remove-bg on toggle failed:"
  end.

(** The [catch] block, which returns at once on AbortError; the [finally]
    block is [onSettled]. *)
Definition onRejected (o : Origin) (abortError : bool) : M unit :=
  when (negb abortError) (console_error (failureMessage o)).

Definition onSettled (o : Origin) : M unit := set (loadingFlag o) false.

(** **** The handlers up to their first [await]

    [props] is the render the handler closed over: state cells read inside
    a handler keep the value they had when it was invoked. *)

Definition handleImageUpload (url : Url) (file : option Blob) : M unit :=
  props <- gets st ;;
  orig <- gets (fun w => originalBlobUrlRef (refs w)) ;;
  when (isBlobUrl orig && negb (is_url orig url)) (revokeObjectURL orig) ;;
  proc <- gets (fun w => processedBlobUrlRef (refs w)) ;;
  when (isBlobUrl proc) (revokeObjectURL proc) ;;
  set with_originalImageBlob file ;;
  set with_originalImageUrl (Some url) ;;
  assign with_originalBlobUrlRef (Some url) ;;
  set with_processedImageBlob None ;;
  set with_processedImageUrl None ;;
  set with_originalServerUrl None ;;
  set with_processedServerUrl None ;;
  assign with_processedBlobUrlRef None ;;
  set with_finalImageUrl None ;;
  assign with_currentBlobUrlRef (Some url) ;;
  set with_imageUrl (Some url) ;;
  set with_currentImageBlob file ;;
  getImageDimensionsInInches url ;;
  match file with
  | Some f => when (removeBgEnabled props) (startProcessing FromUpload f)
  | None => ret tt
  end.

Definition handleCancelProcessing : M unit :=
  abortCurrent ;;
  set with_loadingRemoveBg false ;;
  set with_loadingEnhance false.

Definition handleRemoveBg : M unit :=
  props <- gets st ;;
  match currentImageBlob props with
  | Some b =>
      if loadingRemoveBg props then ret tt
      else startProcessing FromRemoveBg b
  | None => ret tt
  end.

Definition handleEnhance : M unit :=
  props <- gets st ;;
  match currentImageBlob props with
  | Some b =>
      if loadingEnhance props then ret tt
      else startProcessing FromEnhance b
  | None => ret tt
  end.

Definition handleClearDesign : M unit :=
  orig <- gets (fun w => originalBlobUrlRef (refs w)) ;;
  when (isBlobUrl orig) (revokeObjectURL orig) ;;
  proc <- gets (fun w => processedBlobUrlRef (refs w)) ;;
  when (isBlobUrl proc) (revokeObjectURL proc) ;;
  assign with_currentBlobUrlRef None ;;
  assign with_originalBlobUrlRef None ;;
  assign with_processedBlobUrlRef None ;;
  set with_imageUrl None ;;
  set with_currentImageBlob None ;;
  set with_originalImageBlob None ;;
  set with_originalImageUrl None ;;
  set with_processedImageBlob None ;;
  set with_processedImageUrl None ;;
  set with_originalServerUrl None ;;
  set with_processedServerUrl None ;;
  set with_finalImageUrl None.

Definition isSome {A} (o : option A) : bool :=
  match o with Some _ => true | None => false end.

Definition handleToggleRemoveBg (enabled : bool) : M unit :=
  props <- gets st ;;
  set with_removeBgEnabled enabled ;;
  if negb enabled && Js.truthy_str (originalImageUrl props)
     && isSome (originalImageBlob props) then
    assign with_currentBlobUrlRef (originalImageUrl props) ;;
    set with_imageUrl (originalImageUrl props) ;;
    set with_currentImageBlob (originalImageBlob props) ;;
    set with_finalImageUrl (Js.or_null (originalServerUrl props)) ;;
    updateDimensionsFromImageUrl (originalImageUrl props)
  else if enabled && Js.truthy_str (processedImageUrl props)
          && isSome (processedImageBlob props) then
    assign with_currentBlobUrlRef (processedImageUrl props) ;;
    set with_imageUrl (processedImageUrl props) ;;
    set with_currentImageBlob (processedImageBlob props) ;;
    set with_finalImageUrl (Js.or_null (processedServerUrl props)) ;;
    updateDimensionsFromImageUrl (processedImageUrl props)
  else if enabled && isSome (originalImageBlob props)
          && negb (isSome (processedImageBlob props)) then
    match originalImageBlob props with
    | Some b => startProcessing FromToggle b
    | None => ret tt
    end
  else ret tt.

(** The cleanup of the unmount effect. *)
Definition unmount : M unit :=
  orig <- gets (fun w => originalBlobUrlRef (refs w)) ;;
  when (isBlobUrl orig) (revokeObjectURL orig) ;;
  proc <- gets (fun w => processedBlobUrlRef (refs w)) ;;
  when (isBlobUrl proc) (revokeObjectURL proc).

(** Add to cart always uses the latest server URL (never blob), matching
    current preview (l.704-710). *)
Definition cartImageUrl (s : State) : option Url :=
  if removeBgEnabled s
  then Js.or_null (processedServerUrl s)
  else Js.or_null (originalServerUrl s).

(** *** Events

    Everything that makes the component run: a handler is invoked, the
    network answers a suspended call, or an image finishes decoding. *)

Inductive event :=
| Upload (url : Url) (file : option Blob)
| RemoveBg
| Enhance
| ClearDesign
| ToggleRemoveBg (enabled : bool)
| CancelProcessing
| Unmount
| Responded (sig : nat) (res : Response)   (* [fetch] resolves *)
| FetchFailed (sig : nat)                  (* [fetch] rejects, no abort *)
| BodyRead (sig : nat) (body : Blob)       (* [res.blob()] resolves *)
| BodyFailed (sig : nat)                   (* [res.blob()] rejects, no abort *)
| ImageLoaded (i : nat) (naturalWidth naturalHeight : N)
| ImageFailed (i : nat).

Definition stage_eqb (a b : Stage) : bool :=
  match a, b with
  | AwaitFetch, AwaitFetch | AwaitBlob, AwaitBlob => true
  | _, _ => false
  end.

Definition has_signal (sig : nat) (c : Call) : bool := Nat.eqb (signal c) sig.

Definition drop_call (sig : nat) : M unit :=
  modify (on_calls (filter (fun c => negb (has_signal sig c)))).

Definition advance (sig : nat) (c : Call) : Call :=
  if has_signal sig c
  then {| origin := origin c; stage := AwaitBlob; signal := signal c;
          aborted := aborted c |}
  else c.

(** Resume the call that holds [sig] if it waits at [want] and its signal
    has not fired; otherwise the event does not concern this component. *)
Definition resume (sig : nat) (want : Stage) (k : Call -> M unit) : M unit :=
  fun w =>
    match find (has_signal sig) (calls w) with
    | Some c =>
        if stage_eqb (stage c) want && negb (aborted c) then k c w
        else (tt, w)
    | None => (tt, w)
    end.

Definition remove_nth {A} (i : nat) (l : list A) : list A :=
  firstn i l ++ skipn (S i) l.

Definition dispatch (e : event) : M unit :=
  match e with
  | Upload url file => handleImageUpload url file
  | RemoveBg => handleRemoveBg
  | Enhance => handleEnhance
  | ClearDesign => handleClearDesign
  | ToggleRemoveBg enabled => handleToggleRemoveBg enabled
  | CancelProcessing => handleCancelProcessing
  | Unmount => unmount
  | Responded sig res =>
      resume sig AwaitFetch (fun c =>
        onResponse (origin c) res ;;
        modify (on_calls (map (advance sig))))
  | BodyRead sig body =>
      resume sig AwaitBlob (fun c =>
        drop_call sig ;;
        onBlob (origin c) body ;;
        onSettled (origin c))
  | FetchFailed sig =>
      resume sig AwaitFetch (fun c =>
        drop_call sig ;;
        onRejected (origin c) false ;;
        onSettled (origin c))
  | BodyFailed sig =>
      resume sig AwaitBlob (fun c =>
        drop_call sig ;;
        onRejected (origin c) false ;;
        onSettled (origin c))
  | ImageLoaded i naturalWidth naturalHeight =>
      pending <- gets reads ;;
      match nth_error pending i with
      | Some _ =>
          modify (on_reads (remove_nth i)) ;;
          set with_width (inches naturalWidth) ;;
          set with_height (inches naturalHeight)
      | None => ret tt
      end
  | ImageFailed i =>
      pending <- gets reads ;;
      match nth_error pending i with
      | Some _ =>
          modify (on_reads (remove_nth i)) ;;
          console_warn "Could not read image dimensions:"
      | None => ret tt
      end
  end.

(** [abort()] rejects the promise a call waits on, and the rejection is
    delivered once the running handler has returned: the [catch] and
    [finally] blocks of the cancelled calls run right after it. *)
Fixpoint settle (dead : list Call) : M unit :=
  match dead with
  | [] => ret tt
  | c :: rest =>
      onRejected (origin c) true ;;
      onSettled (origin c) ;;
      settle rest
  end.

Definition settle_aborted : M unit :=
  dead <- gets (fun w => filter aborted (calls w)) ;;
  modify (on_calls (filter (fun c => negb (aborted c)))) ;;
  settle dead.

Definition step (w : World) (e : event) : World :=
  exec (dispatch e ;; settle_aborted) w.

Definition run (es : list event) (w : World) : World := fold_left step es w.

Definition reachable (w : World) : Prop :=
  exists es, w = run es initialWorld.

(** *** Observations *)

Definition revocations (u : Url) (l : list effect) : nat :=
  List.length (filter (fun e => match e with
                                | Revoke v => String.eqb v u
                                | _ => false
                                end) l).

Definition is_fetch (e : effect) : bool :=
  match e with Fetch _ _ _ => true | _ => false end.

Definition fetches (l : list effect) : list effect := filter is_fetch l.

(** Which of the two artifacts the preview shows. *)
Inductive Kind := Original | Processed.

Definition kind_eqb (a b : Kind) : bool :=
  match a, b with
  | Original, Original | Processed, Processed => true
  | _, _ => false
  end.

Definition displayedKind (s : State) : option Kind :=
  match imageUrl s with
  | None => None
  | Some u =>
      if is_url (processedImageUrl s) u then Some Processed
      else if is_url (originalImageUrl s) u then Some Original
      else None
  end.

(** Which artifact the cart URL was taken from. *)
Definition cartKind (s : State) : Kind :=
  if removeBgEnabled s then Processed else Original.

(** The preview and the cart agree: a cart URL is offered only for the
    artifact on display. *)
Definition cart_matches_preview (s : State) : bool :=
  match cartImageUrl s with
  | None => true
  | Some _ =>
      match displayedKind s with
      | Some k => kind_eqb k (cartKind s)
      | None => false
      end
  end.

Definition asValue (o : option string) : Js.value :=
  match o with Some s => Js.Str s | None => Js.Null end.

(** The props the component hands to [AddToCartButton]. *)
Definition cartButtonProps (variantId : Js.value) (preCut : bool)
    (quantity : Z) (s : State) : AddToCartButton.Props :=
  {| AddToCartButton.variantId := variantId;
     AddToCartButton.imageUrl := asValue (cartImageUrl s);
     AddToCartButton.width := width s;
     AddToCartButton.height := height s;
     AddToCartButton.preCut := preCut;
     AddToCartButton.quantity := quantity;
     AddToCartButton.disabled := loadingRemoveBg s || loadingEnhance s |}.

(** No call is left with a fired signal once the handlers have returned. *)
Definition settled (w : World) : bool :=
  forallb (fun c => negb (aborted c)) (calls w).

Definition is_error (e : effect) : bool :=
  match e with Error _ => true | _ => false end.

End ProductCustomizer.

(** ** Sessions used as examples *)

Module Scenarios.

Import ProductCustomizer.
Local Open Scope string_scope.

(** The remove-bg endpoint answers with both link headers. *)
Definition removeBgResponse : Response :=
  {| status := 200;
     headers := [("X-Image-Link", "/uploads/p1.png");
                 ("X-Original-Image-Link", "uploads/o1.png")] |}.

(** The enhance endpoint answers with both link headers. *)
Definition enhanceResponse : Response :=
  {| status := 200;
     headers := [("X-AutoEnhance-Link", "/uploads/e1.png");
                 ("X-Original-Image-Link", "uploads/o1.png")] |}.

(** The endpoint fails: status 500, no link header, an error page as body. *)
Definition serverError : Response :=
  {| status := 500; headers := [("Content-Type", "text/html")] |}.

Definition P1 : Url := "https://highquality.allgovjobs.com/backend/uploads/p1.png".
Definition O1 : Url := "https://highquality.allgovjobs.com/backend/uploads/o1.png".
Definition E1 : Url := "https://highquality.allgovjobs.com/backend/uploads/e1.png".

(** Upload with the toggle on; background removal succeeds. *)
Definition upload_processed : list event :=
  [Upload "blob:a" (Some "A");
   Responded 0 removeBgResponse;
   BodyRead 0 "A-nobg"].

(** Toggle off, upload, then Enhance succeeds. *)
Definition enhance_with_toggle_off : list event :=
  [ToggleRemoveBg false;
   Upload "blob:a" (Some "A");
   Enhance;
   Responded 0 enhanceResponse;
   BodyRead 0 "A+"].

(** Upload with the toggle on; the headers of the answer are in, the body
    is still on its way. *)
Definition upload_headers_in : list event :=
  [Upload "blob:a" (Some "A");
   Responded 0 removeBgResponse].


(** Upload with the toggle on; the endpoint answers 500. *)
Definition server_error_on_upload : list event :=
  [Upload "blob:a" (Some "A");
   Responded 0 serverError;
   BodyRead 0 "<html>Internal Server Error</html>"].

(** Upload and background removal, Enhance on the result, then Clear. *)
Definition enhance_processed_then_clear : list event :=
  upload_processed
  ++ [Enhance; Responded 1 enhanceResponse; BodyRead 1 "A-nobg+"; ClearDesign].

(** A remove-bg call started from the button is waiting for its body. *)
Definition removeBg_body_pending : list event :=
  [ToggleRemoveBg false;
   Upload "blob:a" (Some "A");
   RemoveBg;
   Responded 0 removeBgResponse].

(** An enhance call is waiting for its body. *)
Definition enhance_body_pending : list event :=
  [ToggleRemoveBg false;
   Upload "blob:a" (Some "A");
   Enhance;
   Responded 0 enhanceResponse].

End Scenarios.

(** ** The rest of the components *)

(** *** SizeControls.jsx: the predefined sizes *)

Module SizePresets.

Import SizeControls.

(** [selectPredefined(w, h)] with the [disabled] prop. *)
Definition selectPredefined (disabled : bool) (w h : Q) (s : Size) : Size :=
  if disabled then s
  else setHeight (clamp h) (setWidth (clamp w) s).

(** [Math.abs(width - w) < 0.01 && Math.abs(height - h) < 0.01] *)
Definition isSelected (w h : Q) (s : Size) : bool :=
  Js.lt (Qabs (width s - w)) (1 # 100) && Js.lt (Qabs (height s - h)) (1 # 100).

End SizePresets.

(** *** The quantity row of ProductCustomizer.jsx (l.811-833) *)

Module QuantityControl.

(** What [parseInt(e.target.value)] gives. *)
Inductive parsed :=
| NaN
| Int (n : Z).

(** [parseInt(v) || 1]: NaN and 0 are falsy. *)
Definition or_one (p : parsed) : Z :=
  match p with
  | NaN => 1
  | Int n => if Z.eqb n 0 then 1 else n
  end.

(** The quantity is a JavaScript number that holds an integer, and [+]
    and [-] are binary64 operations: the exact result, here an integer
    [n], is rounded to the nearest binary64 number, the one with the even
    significand on a tie.  Integers below 2^53 in absolute value are kept
    as they are; results beyond the finite range are outside the model. *)
Definition round64 (n : Z) : Z :=
  (let a := Z.abs n in
   if a <? 2 ^ 53 then n
   else
     let e := Z.log2 a - 52 in
     let m := a / 2 ^ e in
     let r := a mod 2 ^ e in
     let half := 2 ^ (e - 1) in
     let k := if r <? half then m
              else if half <? r then m + 1
              else if Z.even m then m else m + 1 in
     Z.sgn n * (k * 2 ^ e))%Z.

(** [Math.max(1, q - 1)], [q + 1] and [Math.max(1, parseInt(v) || 1)] *)
Definition decrement (q : Z) : Z := Z.max 1 (round64 (q - 1)).
Definition increment (q : Z) : Z := round64 (q + 1).
Definition change (p : parsed) : Z := Z.max 1 (or_one p).

Inductive action :=
| Minus
| Plus
| Typed (p : parsed).

Definition perform (a : action) (q : Z) : Z :=
  match a with
  | Minus => decrement q
  | Plus => increment q
  | Typed p => change p
  end.

End QuantityControl.

(** *** PricePreview.jsx *)

Module PricePreview.

Definition BASE_PRICE : Q := 917 # 100.
Definition PRICE_PER_SQIN : Q := 416 # 10000.
Definition PRECUT_FEE : Q := 24 # 100.

(** A volume discount tier; [maxQty = None] is [Infinity]. *)
Record Tier := {
  minQty : Q;
  maxQty : option Q;
  discount : Q;
  label : string
}.

Definition DISCOUNT_TIERS : list Tier :=
  [ {| minQty := 1; maxQty := Some 14; discount := 0; label := "1-14 pcs" |};
    {| minQty := 15; maxQty := Some 49; discount := 2 # 10;
       label := "15-49 pcs (20% off)" |};
    {| minQty := 50; maxQty := Some 99; discount := 3 # 10;
       label := "50-99 pcs (30% off)" |};
    {| minQty := 100; maxQty := Some 249; discount := 4 # 10;
       label := "100-249 pcs (40% off)" |};
    {| minQty := 250; maxQty := None; discount := 5 # 10;
       label := "250+ pcs (50% off)" |} ].

(** [quantity >= t.minQty && quantity <= t.maxQty] *)
Definition applies (quantity : Q) (t : Tier) : bool :=
  Js.ge quantity (minQty t)
  && match maxQty t with
     | Some m => Js.le quantity m
     | None => true
     end.

(** [DISCOUNT_TIERS.find(..) || DISCOUNT_TIERS[0]] *)
Definition tierFor (quantity : Q) : Tier :=
  match find (applies quantity) DISCOUNT_TIERS with
  | Some t => t
  | None => {| minQty := 1; maxQty := Some 14; discount := 0;
               label := "1-14 pcs" |}
  end.

Record Pricing := {
  area : Q;
  areaPrice : Q;
  preCutPrice : Q;
  unitPrice : Q;
  discountedUnitPrice : Q;
  totalPrice : Q;
  pricing_discount : Q;
  tierLabel : string
}.

(** The component computes with [basePrice = 0]; [BASE_PRICE] is unused. *)
Definition basePrice : Q := 0.

Definition pricing (width height : Q) (preCut : bool) (quantity : Q) : Pricing :=
  let area := width * height in
  let areaPrice := area * PRICE_PER_SQIN in
  let preCutPrice := if preCut then PRECUT_FEE else 0 in
  let unitPrice := basePrice + areaPrice + preCutPrice in
  let tier := tierFor quantity in
  let discountedUnitPrice := unitPrice * (1 - discount tier) in
  let totalPrice := discountedUnitPrice * quantity in
  {| area := area; areaPrice := areaPrice; preCutPrice := preCutPrice;
     unitPrice := unitPrice; discountedUnitPrice := discountedUnitPrice;
     totalPrice := totalPrice; pricing_discount := discount tier;
     tierLabel := label tier |}.

(** The amount after "You save $". *)
Definition savings (p : Pricing) (quantity : Q) : Q :=
  (unitPrice p - discountedUnitPrice p) * quantity.

End PricePreview.

(** *** UploadLoader.jsx and the progress effect of UploadPanel.jsx *)

Module UploadLoader.

(** [Math.round(x)]: the nearest integer, the larger one on a tie. *)
Definition round (x : Q) : Z := Qfloor (x + (1 # 2)).

(** [Math.min(100, Math.max(0, Number(progress)))] *)
Definition value (progress : Q) : Q := Qmin 100 (Qmax 0 progress).

Definition displayPercent (progress : Q) : Z := round (value progress).

(** One tick of the interval in UploadPanel: [elapsed] milliseconds after
    the start, with [duration = 4000]. *)
Definition duration : Q := 4000.
Definition tick (elapsed : Q) : Q := Qmin 90 (elapsed / duration * 90).

(** [setProgress((prev) => (prev > 0 ? 100 : 0))] when loading ends. *)
Definition finish (prev : Q) : Q := if Js.gt prev 0 then 100 else 0.

End UploadLoader.

(** *** UploadPanel.jsx: the progress effect (l.21, l.33-49) *)

Module ProgressEffect.

Import UploadLoader.

(** The [progress] cell (l.21), whether the interval of the effect is
    still scheduled, and what the last run of the effect saw of
    [loadingRemoveBg || loadingEnhance]. *)
Record State := {
  progress : Q;
  ticking : bool;
  loading : bool
}.

Definition initial : State :=
  {| progress := 0; ticking := false; loading := false |}.

Inductive event :=
| Effect (loadingRemoveBg loadingEnhance : bool)
    (* the effect runs: after the first render and after every render in
       which one of the two flags has changed *)
| Interval (elapsed : Q).
    (* the interval callback runs, [elapsed = Date.now() - start] *)

(** The cleanup of the run before clears its interval; then the body. *)
Definition step (s : State) (e : event) : State :=
  match e with
  | Effect loadingRemoveBg loadingEnhance =>
      if negb loadingRemoveBg && negb loadingEnhance
      then {| progress := finish (progress s); ticking := false;
              loading := false |}
      else {| progress := 0; ticking := true; loading := true |}
  | Interval elapsed =>
      if ticking s
      then let p := tick elapsed in
           {| progress := p; ticking := negb (Js.ge p 90);
              loading := loading s |}
      else s
  end.

Definition run (es : list event) (s : State) : State := fold_left step es s.

(** What the loader prints when it is rendered with this state
    ([progress={progress}], l.226-228). *)
Definition printed (s : State) : Z := displayPercent (progress s).

End ProgressEffect.

(** *** The older SizeControls.jsx (free width and height, no aspect lock) *)

Module FreeSizeControls.

Definition STEP_INCHES : Q := 25 # 100.
Definition MIN_SIZE : Q := 25 # 100.
Definition MAX_SIZE : Q := 100.

(** The updater functions given to [setWidth] / [setHeight]. *)
Definition increment (prev : Q) : Q :=
  Qmin MAX_SIZE (Js.toFixed2 (prev + STEP_INCHES)).
Definition decrement (prev : Q) : Q :=
  Qmax MIN_SIZE (Js.toFixed2 (prev - STEP_INCHES)).

(** [handleWidthChange] / [handleHeightChange]: they differ in the cell
    they write only. *)
Definition handleChange (e : SizeControls.input) (prev : Q) : Q :=
  match e with
  | SizeControls.Parsed value =>
      if Js.ge value MIN_SIZE && Js.le value MAX_SIZE
      then Js.toFixed2 value else prev
  | SizeControls.Empty => MIN_SIZE
  | SizeControls.Garbage => prev
  end.

Inductive action :=
| Inc
| Dec
| Type_ (e : SizeControls.input).

Definition perform (a : action) (prev : Q) : Q :=
  match a with
  | Inc => increment prev
  | Dec => decrement prev
  | Type_ e => handleChange e prev
  end.

Definition in_range (v : Q) : Prop := MIN_SIZE <= v <= MAX_SIZE.

End FreeSizeControls.

(** *** ImageCropModal.jsx: the geometry of [getCroppedImg] *)

Module ImageCropModal.

(** The image element: its natural size and the size it is displayed at. *)
Record Image := {
  naturalWidth : N;
  naturalHeight : N;
  width : Q;
  height : Q
}.

Record PixelCrop := {
  x : Q;
  y : Q;
  crop_width : Q;
  crop_height : Q
}.

Definition scaleX (image : Image) : Q :=
  inject_Z (Z.of_N (naturalWidth image)) / width image.
Definition scaleY (image : Image) : Q :=
  inject_Z (Z.of_N (naturalHeight image)) / height image.

(** The source rectangle handed to [drawImage]; the canvas gets its size. *)
Record Rect := {
  sx : Z;
  sy : Z;
  sw : Z;
  sh : Z
}.

Definition sourceRect (image : Image) (pixelCrop : PixelCrop) : Rect :=
  {| sx := Qfloor (x pixelCrop * scaleX image);
     sy := Qfloor (y pixelCrop * scaleY image);
     sw := Qfloor (crop_width pixelCrop * scaleX image);
     sh := Qfloor (crop_height pixelCrop * scaleY image) |}.

End ImageCropModal.

(** *** DesignViewer.jsx: how the garment and the logo are scaled *)

Module DesignViewer.

Definition CANVAS_W : Q := 140.
Definition CANVAS_H : Q := 180.

(** The scale given to a garment image of [width] x [height] pixels. *)
Definition baseScale (width height : Q) : Q :=
  Qmin (CANVAS_W * (99 # 100) / width) (CANVAS_H * (99 # 100) / height).

(** The scale given to a logo [logoWidth] pixels wide on a garment whose
    scaled width is [hoodiePixelWidth]. *)
Definition logoScale (hoodiePixelWidth logoWidth : Q) : Q :=
  let targetWidth := hoodiePixelWidth * (25 # 100) in
  targetWidth / logoWidth.

End DesignViewer.

(** *** ProductCustomizer.jsx: the controls next to the session

    The component hands [width], [height], [setWidth], [setHeight] to
    [SizeControls] (l.785-791), keeps [quantity] and [preCut] itself and
    passes all of them on to [AddToCartButton] (l.850-858). *)

Module App.

Record State := {
  session : ProductCustomizer.World;
  preCut : bool;
  quantity : Z
}.

Definition initial : State :=
  {| session := ProductCustomizer.initialWorld; preCut := false;
     quantity := 1 |}.

Inductive event :=
| Session (e : ProductCustomizer.event)
| Resize (a : SizeControls.action)
| Preset (w h : Q)
| Quantity (a : QuantityControl.action)
| PreCut (checked : bool).

(** The two cells [SizeControls] reads and writes. *)
Definition size_of (w : ProductCustomizer.World) : SizeControls.Size :=
  {| SizeControls.width := ProductCustomizer.width (ProductCustomizer.st w);
     SizeControls.height := ProductCustomizer.height (ProductCustomizer.st w) |}.

Definition write_size (s : SizeControls.Size) (w : ProductCustomizer.World)
  : ProductCustomizer.World :=
  ProductCustomizer.on_st
    (ProductCustomizer.with_height (SizeControls.height s))
    (ProductCustomizer.on_st
       (ProductCustomizer.with_width (SizeControls.width s)) w).

Definition step (a : State) (e : event) : State :=
  match e with
  | Session e' =>
      {| session := ProductCustomizer.step (session a) e';
         preCut := preCut a; quantity := quantity a |}
  | Resize act =>
      {| session := write_size (SizeControls.perform act (size_of (session a)))
                      (session a);
         preCut := preCut a; quantity := quantity a |}
  | Preset w h =>
      {| session := write_size
                      (SizePresets.selectPredefined false w h
                         (size_of (session a)))
                      (session a);
         preCut := preCut a; quantity := quantity a |}
  | Quantity act =>
      {| session := session a; preCut := preCut a;
         quantity := QuantityControl.perform act (quantity a) |}
  | PreCut checked =>
      {| session := session a; preCut := checked; quantity := quantity a |}
  end.

Definition run (es : list event) (a : State) : State := fold_left step es a.

Definition reachable (a : State) : Prop := exists es, a = run es initial.

(** The props of the cart button in state [a]. *)
Definition cartProps (variantId : Js.value) (a : State) : AddToCartButton.Props :=
  ProductCustomizer.cartButtonProps variantId (preCut a) (quantity a)
    (ProductCustomizer.st (session a)).

(** The props of the price box in state [a]. *)
Definition price (a : State) : PricePreview.Pricing :=
  PricePreview.pricing
    (ProductCustomizer.width (ProductCustomizer.st (session a)))
    (ProductCustomizer.height (ProductCustomizer.st (session a)))
    (preCut a) (inject_Z (quantity a)).

End App.

(** *** UploadPanel.jsx: which handlers the panel lets through *)

Module UploadPanel.

Import ProductCustomizer.


(** The handlers behind a control that carries [disabled={isAnyLoading}]:
    the toggle (l.162-163), Remove BG (l.252-253), Enhance (l.368-369),
    the file button whose crop dialog ends in [onUpload] (l.439-440) and
    Remove (l.465-466). *)
Definition needs_idle (e : event) : bool :=
  match e with
  | Upload _ _ | RemoveBg | Enhance | ClearDesign | ToggleRemoveBg _ => true
  | _ => false
  end.


End UploadPanel.

(** *** Predicates used to state what the session keeps *)

Module Invariants.

Import ProductCustomizer.

(** Running [m] keeps [P]. *)
Definition preserves {A} (P : World -> Prop) (m : M A) : Prop :=
  forall w, P w -> P (snd (m w)).

(** The suspended calls whose signal has not fired. *)
Definition live (w : World) : list Call :=
  filter (fun c => negb (aborted c)) (calls w).

(** At most one call is live, and it holds the signal of the controller in
    [abortControllerRef]. *)
Definition one_flight (w : World) : Prop :=
  match live w with
  | [] => True
  | [c] => abortControllerRef (refs w) = Some (signal c)
  | _ => False
  end.

(** [null], or a URL under [API_BASE]. *)
Definition server_ok (o : option Url) : Prop :=
  match o with
  | None => True
  | Some u => Js.startsWith (API_BASE ++ "/") u = true
  end.

Definition server_urls_ok (w : World) : Prop :=
  server_ok (processedServerUrl (st w))
  /\ server_ok (originalServerUrl (st w))
  /\ server_ok (finalImageUrl (st w)).

(** A dimension the size row can show: in range, two decimals. *)
Definition good_size (v : Q) : Prop :=
  SizeControls.in_range v /\ SizeControls.two_decimals v.

Definition sized (w : World) : Prop :=
  good_size (width (st w)) /\ good_size (height (st w)).

(** The state with both loading flags lowered: what a state is apart from
    its flags. *)
Definition quiet (s : State) : State :=
  with_loadingEnhance false (with_loadingRemoveBg false s).

(** The two flags: [loadingEnhance] for Enhance, [loadingRemoveBg] for the
    three other call sites. *)
Definition is_enhance (o : Origin) : bool :=
  match o with FromEnhance => true | _ => false end.

(** The call a handler leaves suspended at [await fetch]. *)
Definition request (o : Origin) (sig : nat) : Call :=
  {| origin := o; stage := AwaitFetch; signal := sig; aborted := false |}.

(** How the loading flags follow the call in flight. *)
Definition flags_ok (w : World) : Prop :=
  match calls w with
  | [] => loadingEnhance (st w) = false /\ loadingRemoveBg (st w) = false
  | [c] => loadingEnhance (st w) = is_enhance (origin c)
           /\ (is_enhance (origin c) = true -> loadingRemoveBg (st w) = false)
  | _ => False
  end.


(** What one handler run does to the suspended calls and the two flags,
    from [w] to [d]: nothing, a new call, a cancellation, the headers of
    an answer, or the end of a call.  Only a handler marked [true] starts
    a call. *)
Inductive shape (w d : World) : bool -> Prop :=
| Same (b : bool) :
    calls d = calls w ->
    loadingEnhance (st d) = loadingEnhance (st w) ->
    loadingRemoveBg (st d) = loadingRemoveBg (st w) -> shape w d b
| Started (o : Origin) :
    calls d = calls (snd (abortCurrent w)) ++ [request o (controllers w)] ->
    loadingEnhance (st d)
    = (if is_enhance o then true else loadingEnhance (st w)) ->
    loadingRemoveBg (st d)
    = (if is_enhance o then loadingRemoveBg (st w) else true) ->
    (is_enhance o = true -> loadingEnhance (st w) = false) -> shape w d true
| Stopped :
    calls d = calls (snd (abortCurrent w)) ->
    loadingEnhance (st d) = false -> loadingRemoveBg (st d) = false ->
    shape w d false
| Advanced (sig : nat) :
    calls d = map (advance sig) (calls w) ->
    loadingEnhance (st d) = loadingEnhance (st w) ->
    loadingRemoveBg (st d) = loadingRemoveBg (st w) -> shape w d false
| Finished (sig : nat) (c : Call) :
    find (has_signal sig) (calls w) = Some c ->
    calls d = filter (fun k => negb (has_signal sig k)) (calls w) ->
    loadingEnhance (st d)
    = loadingEnhance (st w) && negb (is_enhance (origin c)) ->
    loadingRemoveBg (st d)
    = loadingRemoveBg (st w) && is_enhance (origin c) -> shape w d false.

End Invariants.

(** * Properties *)

(** ** Rounding to two decimals *)

Section Rounding.

Lemma lt_false_iff x y : Js.lt x y = false <-> y <= x.
Proof.
  unfold Js.lt. rewrite negb_false_iff. apply Qle_bool_iff.
Qed.

Lemma gt_true_iff x y : Js.gt x y = true <-> y < x.
Proof.
  unfold Js.gt. rewrite negb_true_iff. split; intros H.
  - apply Qnot_le_lt. intros L. apply Qle_bool_iff in L. congruence.
  - destruct (Qle_bool x y) eqn:E; [|reflexivity].
    apply Qle_bool_iff in E. exfalso. exact (Qlt_not_le _ _ H E).
Qed.

Lemma nearest_hundredth_bounds (lo hi : Z) (x : Q) :
  inject_Z lo <= x * 100 -> x * 100 <= inject_Z hi ->
  (lo <= Js.nearest_hundredth x <= hi)%Z.
Proof.
  intros Hlo Hhi. unfold Js.nearest_hundredth. split.
  - rewrite <- (Qfloor_Z lo). apply Qfloor_resp_le.
    apply Qle_trans with (x * 100); [exact Hlo|].
    rewrite <- (Qplus_0_r (x * 100)) at 1.
    apply Qplus_le_r. discriminate.
  - apply Z.lt_succ_r. rewrite Zlt_Qlt.
    apply Qle_lt_trans with (x * 100 + (1 # 2)); [apply Qfloor_le|].
    apply Qle_lt_trans with (inject_Z hi + (1 # 2)).
    + apply Qplus_le_l. exact Hhi.
    + unfold Z.succ. rewrite inject_Z_plus. apply Qplus_lt_r. reflexivity.
Qed.

Lemma toFixed2_nonneg x : 0 <= x -> Js.toFixed2 x = Js.nearest_hundredth x # 100.
Proof.
  intros H. unfold Js.toFixed2. apply lt_false_iff in H. now rewrite H.
Qed.

Lemma toFixed2_two_decimals x : exists k : Z, Js.toFixed2 x == k # 100.
Proof.
  unfold Js.toFixed2. destruct (Js.lt x 0).
  - exists (- Js.nearest_hundredth (- x))%Z. reflexivity.
  - exists (Js.nearest_hundredth x). reflexivity.
Qed.

Lemma toFixed2_range x :
  (1 # 2) <= x <= (45 # 2) -> (1 # 2) <= Js.toFixed2 x <= (45 # 2).
Proof.
  intros [Hlo Hhi].
  assert (H0 : 0 <= x) by (apply Qle_trans with (1 # 2); [discriminate|exact Hlo]).
  rewrite (toFixed2_nonneg x H0).
  destruct (nearest_hundredth_bounds 50 2250 x) as [A B].
  - apply Qle_trans with ((1 # 2) * 100); [discriminate|].
    apply Qmult_le_compat_r; [exact Hlo|discriminate].
  - apply Qle_trans with ((45 # 2) * 100); [|discriminate].
    apply Qmult_le_compat_r; [exact Hhi|discriminate].
  - unfold Qle; simpl. lia.
Qed.

Lemma toFixed2_close x :
  0 <= x -> Qabs (Js.toFixed2 x - x) <= 1 # 200.
Proof.
  intros H0. rewrite (toFixed2_nonneg x H0). unfold Js.nearest_hundredth.
  set (y := x * 100 + (1 # 2)).
  pose proof (Qfloor_le y) as L. pose proof (Qlt_floor y) as U.
  set (n := Qfloor y) in *.
  assert (E : n # 100 == inject_Z n / 100).
  { unfold Qeq, inject_Z, Qdiv; simpl. lia. }
  apply Qabs_Qle_condition. rewrite E. split.
  - apply Qle_minus_iff.
    setoid_replace (inject_Z n / 100 - x + - - (1 # 200))
      with ((inject_Z (n + 1) - y) / 100).
    + apply Qle_shift_div_l; [reflexivity|]. rewrite Qmult_0_l.
      apply Qlt_le_weak in U. apply Qle_minus_iff in U. exact U.
    + unfold y. rewrite inject_Z_plus. field.
  - apply Qle_minus_iff.
    setoid_replace ((1 # 200) + - (inject_Z n / 100 - x))
      with ((y - inject_Z n) / 100).
    + apply Qle_shift_div_l; [reflexivity|]. rewrite Qmult_0_l.
      apply Qle_minus_iff in L. exact L.
    + unfold y. field.
Qed.

End Rounding.

(** ** Size controls *)

Section SizeControlsFacts.

Import SizeControls.

Lemma clamp_in_range v : in_range (clamp v).
Proof.
  unfold in_range, clamp. apply toFixed2_range. split.
  - apply Q.min_glb; [discriminate|apply Q.le_max_l].
  - apply Q.le_min_l.
Qed.

Lemma clamp_two_decimals v : two_decimals (clamp v).
Proof. apply toFixed2_two_decimals. Qed.

Lemma updateWidthAndHeight_ok a b s :
  let s' := updateWidthAndHeight a b s in
  in_range (width s') /\ in_range (height s')
  /\ two_decimals (width s') /\ two_decimals (height s').
Proof.
  simpl. auto using clamp_in_range, clamp_two_decimals.
Qed.

Lemma fitHeight_ok a s :
  let s' := fitHeight a s in
  in_range (width s') /\ in_range (height s')
  /\ two_decimals (width s') /\ two_decimals (height s').
Proof.
  unfold fitHeight.
  destruct (Js.gt _ _); [|destruct (Js.lt _ _)];
    apply updateWidthAndHeight_ok.
Qed.

Lemma fitWidth_ok a s :
  let s' := fitWidth a s in
  in_range (width s') /\ in_range (height s')
  /\ two_decimals (width s') /\ two_decimals (height s').
Proof.
  unfold fitWidth.
  destruct (Js.gt _ _); [|destruct (Js.lt _ _)];
    apply updateWidthAndHeight_ok.
Qed.

Lemma accepted_in_range value :
  accepted (Parsed value) = true -> in_range value.
Proof.
  unfold accepted, Js.ge, Js.le. rewrite andb_true_iff.
  intros [A B]. split; now apply Qle_bool_iff.
Qed.

(** C10. From a width and a height in [0.5, 22.5], every action of the
    stepper row (a stepper click, a typed value, accepted or not) leaves both
    the width and the height in [0.5, 22.5]; after a stepper click or an
    accepted typed value both are rounded to two decimals.  This covers the
    dimension that is adjusted through the aspect ratio.  (The range
    hypotheses also keep the aspect ratio positive and finite, which is where
    the rational reading of the arithmetic is exact.) *)
Theorem size_controls_stay_in_range (a : action) (s : Size) :
  in_range (width s) -> in_range (height s) ->
  let s' := perform a s in
  in_range (width s') /\ in_range (height s')
  /\ (effective a = true ->
      two_decimals (width s') /\ two_decimals (height s')).
Proof.
  intros Hw Hh. destruct a as [| | | |e|e]; simpl.
  - destruct (fitHeight_ok (Qmin MAX_SIZE (Js.toFixed2 (width s + STEP_INCHES))) s)
      as (A & B & C & D). auto.
  - destruct (fitHeight_ok (Qmax MIN_SIZE (Js.toFixed2 (width s - STEP_INCHES))) s)
      as (A & B & C & D). auto.
  - destruct (fitWidth_ok (Qmin MAX_SIZE (Js.toFixed2 (height s + STEP_INCHES))) s)
      as (A & B & C & D). auto.
  - destruct (fitWidth_ok (Qmax MIN_SIZE (Js.toFixed2 (height s - STEP_INCHES))) s)
      as (A & B & C & D). auto.
  - destruct e as [value| |]; simpl.
    + destruct (Js.ge value MIN_SIZE && Js.le value MAX_SIZE) eqn:Ha; simpl.
      * apply (accepted_in_range value) in Ha.
        repeat split; try apply clamp_in_range; try apply clamp_two_decimals;
          try apply toFixed2_two_decimals; apply toFixed2_range; exact Ha.
      * repeat split; try apply Hw; try apply Hh; discriminate.
    + repeat split; try apply Hh; discriminate.
    + repeat split; try apply Hw; try apply Hh; discriminate.
  - destruct e as [value| |]; simpl.
    + destruct (Js.ge value MIN_SIZE && Js.le value MAX_SIZE) eqn:Ha; simpl.
      * apply (accepted_in_range value) in Ha.
        repeat split; try apply clamp_in_range; try apply clamp_two_decimals;
          try apply toFixed2_two_decimals; apply toFixed2_range; exact Ha.
      * repeat split; try apply Hw; try apply Hh; discriminate.
    + repeat split; try apply Hw; discriminate.
    + repeat split; try apply Hw; try apply Hh; discriminate.
Qed.

Lemma size_controls_stay_in_range_witness :
  let s := {| width := 10; height := 45 # 2 |} in
  let s' := perform IncW s in
  in_range (width s') /\ in_range (height s')
  /\ two_decimals (width s') /\ two_decimals (height s').
Proof.
  intros s s'.
  destruct (size_controls_stay_in_range IncW s) as (A & B & C).
  - split; discriminate.
  - split; discriminate.
  - split; [exact A|split; [exact B|exact (C eq_refl)]].
Defined.

End SizeControlsFacts.

(** ** The cart button *)

Section CartButtonFacts.

Import AddToCartButton.

Lemma isValid_inv p :
  isValid p = true ->
  isServerUrl p = true /\ 0 < width p /\ 0 < height p
  /\ Js.truthy (variantId p) = true.
Proof.
  unfold isValid. rewrite !andb_true_iff.
  intros [[[A B] C] D]. repeat split; try assumption;
    now apply gt_true_iff.
Qed.

Lemma isServerUrl_inv p :
  isServerUrl p = true ->
  exists u, imageUrl p = Js.Str u /\ u <> ""%string
            /\ Js.startsWith "blob:" u = false.
Proof.
  unfold isServerUrl. destruct (imageUrl p) as [| |n|u]; try discriminate.
  rewrite andb_true_iff, negb_true_iff. intros [A B].
  exists u. repeat split; [|exact B].
  intros ->. discriminate.
Qed.

Lemma addToCart_invalid p s : isValid p = false -> addToCart p s = (s, []).
Proof. unfold addToCart. now intros ->. Qed.

Lemma addToCart_valid p s :
  isValid p = true -> isLoading s = false ->
  exists s' r, addToCart p s = (s', [r]) /\ CustomImage r = imageUrl p.
Proof.
  intros V L. unfold addToCart. rewrite V, L. simpl.
  eexists. eexists. split; reflexivity.
Qed.

(** C5. [addToCart] posts to the cart only when the image URL it was given
    is a non-empty string that does not start with "blob:" and the width and
    the height are both positive; when the URL is anything else, or the width
    or the height is not positive, it returns with the state as it was and
    no request. *)
Theorem addToCart_guard (p : Props) (s : State) :
  (snd (addToCart p s) <> [] ->
     (exists u, imageUrl p = Js.Str u /\ u <> ""%string
                /\ Js.startsWith "blob:" u = false)
     /\ 0 < width p /\ 0 < height p)
  /\ ((forall u, imageUrl p = Js.Str u ->
                 u = ""%string \/ Js.startsWith "blob:" u = true)
      \/ ~ 0 < width p \/ ~ 0 < height p ->
      addToCart p s = (s, [])).
Proof.
  split.
  - unfold addToCart. destruct (isValid p) eqn:V; simpl.
    + intros _. apply isValid_inv in V. destruct V as (A & B & C & _).
      split; [now apply isServerUrl_inv|now split].
    + intros H. now elim H.
  - intros H. apply addToCart_invalid. unfold isValid.
    destruct H as [H|[H|H]].
    + destruct (isServerUrl p) eqn:U; [|reflexivity].
      apply isServerUrl_inv in U. destruct U as (u & E & Ne & Nb).
      destruct (H u E) as [K|K]; congruence.
    + destruct (Js.gt (width p) 0) eqn:G.
      * apply gt_true_iff in G. contradiction.
      * now rewrite andb_false_r.
    + destruct (Js.gt (height p) 0) eqn:G.
      * apply gt_true_iff in G. contradiction.
      * now rewrite andb_false_r.
Qed.

Lemma addToCart_guard_witness :
  let blob := {| variantId := Js.Num 42; imageUrl := Js.Str "blob:0";
                 width := 10; height := 10; preCut := false;
                 quantity := 1%Z; disabled := false |} in
  let flat := {| variantId := Js.Num 42;
                 imageUrl := Js.Str "https://highquality.allgovjobs.com/backend/uploads/p1.png";
                 width := 0; height := 10; preCut := false;
                 quantity := 1%Z; disabled := false |} in
  let s := {| isLoading := false; error := None; success := false |} in
  addToCart blob s = (s, []) /\ addToCart flat s = (s, []).
Proof.
  intros blob flat s. split.
  - apply (proj2 (addToCart_guard blob s)).
    left. intros u E. right. injection E as <-. reflexivity.
  - apply (proj2 (addToCart_guard flat s)).
    right. left. discriminate.
Defined.

(** C9. With a server URL (a non-empty string that does not start with
    "blob:") and positive width and height, [addToCart] still does nothing
    when [variantId] is null or undefined. *)
Theorem addToCart_needs_variant (p : Props) (s : State) (u : string) :
  imageUrl p = Js.Str u -> u <> ""%string ->
  Js.startsWith "blob:" u = false ->
  0 < width p -> 0 < height p ->
  variantId p = Js.Null \/ variantId p = Js.Undefined ->
  addToCart p s = (s, []).
Proof.
  intros _ _ _ _ _ H. apply addToCart_invalid. unfold isValid.
  destruct H as [-> | ->]; apply andb_false_r.
Qed.

Lemma addToCart_needs_variant_witness :
  let p := {| variantId := Js.Null;
              imageUrl := Js.Str "https://highquality.allgovjobs.com/backend/uploads/p1.png";
              width := 10; height := 10; preCut := false;
              quantity := 1%Z; disabled := false |} in
  let s := {| isLoading := false; error := None; success := false |} in
  addToCart p s = (s, []).
Proof.
  intros p s.
  apply (addToCart_needs_variant p s
           "https://highquality.allgovjobs.com/backend/uploads/p1.png").
  - reflexivity.
  - discriminate.
  - reflexivity.
  - reflexivity.
  - reflexivity.
  - left. reflexivity.
Defined.

(** Whatever the session state, a request sent from the button it renders
    carries the projected server URL, never an object URL. *)
Lemma cart_request_carries_server_url variantId preCut quantity st s r :
  In r (snd (addToCart
               (ProductCustomizer.cartButtonProps variantId preCut quantity st) s)) ->
  exists u, CustomImage r = Js.Str u
            /\ ProductCustomizer.cartImageUrl st = Some u
            /\ Js.startsWith "blob:" u = false.
Proof.
  set (p := ProductCustomizer.cartButtonProps variantId preCut quantity st).
  unfold addToCart. destruct (isValid p) eqn:V; simpl; [|tauto].
  destruct (isLoading s); simpl; [tauto|]. intros [<-|[]]. simpl.
  apply isValid_inv in V. destruct V as (U & _).
  apply isServerUrl_inv in U. destruct U as (u & E & _ & B).
  exists u. split; [exact E|]. split; [|exact B].
  change (ProductCustomizer.asValue (ProductCustomizer.cartImageUrl st)
          = Js.Str u) in E.
  destruct (ProductCustomizer.cartImageUrl st); simpl in E;
    [injection E as ->; reflexivity|discriminate E].
Qed.

End CartButtonFacts.

(** ** The image session *)

Section SessionFacts.

Import ProductCustomizer.

Lemma exec_bind {A B} (m : M A) (k : A -> M B) w :
  exec (bind m k) w = exec (k (fst (m w))) (snd (m w)).
Proof. reflexivity. Qed.

Lemma filter_settled (l : list Call) :
  forallb (fun c => negb (aborted c)) l = true ->
  filter aborted l = [] /\ filter (fun c => negb (aborted c)) l = l.
Proof.
  induction l as [|c l IH]; simpl; [now split|].
  rewrite andb_true_iff. intros [Hc Hl]. destruct (IH Hl) as [E1 E2].
  rewrite Hc. apply negb_true_iff in Hc. rewrite Hc.
  split; [exact E1|now rewrite E2].
Qed.

Lemma settle_aborted_settled w :
  settled w = true -> exec settle_aborted w = w.
Proof.
  unfold settled. intros H. destruct (filter_settled _ H) as [E1 E2].
  unfold settle_aborted, exec, bind, gets, modify, on_calls; simpl.
  rewrite E1, E2. now destruct w.
Qed.

Lemma settle_calls dead w : calls (exec (settle dead) w) = calls w.
Proof.
  revert w. induction dead as [|c dead IH]; intros w; [reflexivity|].
  simpl. rewrite !exec_bind, IH. unfold onRejected; simpl. reflexivity.
Qed.

Lemma step_settled w e : settled (step w e) = true.
Proof.
  unfold step. rewrite exec_bind. set (w1 := snd (dispatch e w)).
  unfold settle_aborted. rewrite !exec_bind. unfold settled.
  rewrite settle_calls. simpl.
  apply forallb_forall. intros c Hc. apply filter_In in Hc. tauto.
Qed.

Lemma run_snoc es e w : run (es ++ [e]) w = step (run es w) e.
Proof. unfold run. now rewrite fold_left_app. Qed.

Lemma reachable_settled w : reachable w -> settled w = true.
Proof.
  intros [es ->]. destruct es as [|e es] using rev_ind; [reflexivity|].
  rewrite run_snoc. apply step_settled.
Qed.

(** When no signal has fired, a step is the handler alone, provided the
    handler leaves the suspended calls settled. *)
Lemma step_quiet w e :
  settled (exec (dispatch e) w) = true -> step w e = exec (dispatch e) w.
Proof.
  intros H. unfold step. rewrite exec_bind.
  now apply settle_aborted_settled.
Qed.

End SessionFacts.

Section DimensionFacts.

Import ProductCustomizer.

Lemma inches_in_range n : DIMENSION_MIN <= inches n <= DIMENSION_MAX.
Proof.
  unfold inches. split.
  - apply Q.min_glb; [discriminate|apply Q.le_max_l].
  - apply Q.le_min_l.
Qed.

Lemma pixels_over_dpi_nonneg n : 0 <= inject_Z (Z.of_N n) / DPI.
Proof.
  apply Qle_shift_div_l; [reflexivity|]. rewrite Qmult_0_l.
  change 0 with (inject_Z 0). rewrite <- Zle_Qle. apply N2Z.is_nonneg.
Qed.

(** [inches n] is [n / 300] moved to a nearest hundredth and then clamped. *)
Lemma inches_spec n :
  exists k : Z,
    Qabs ((k # 100) - inject_Z (Z.of_N n) / 300) <= 1 # 200
    /\ inches n = Qmin (45 # 2) (Qmax (1 # 2) (k # 100)).
Proof.
  exists (Js.nearest_hundredth (inject_Z (Z.of_N n) / DPI)). split.
  - rewrite <- toFixed2_nonneg by apply pixels_over_dpi_nonneg.
    apply toFixed2_close, pixels_over_dpi_nonneg.
  - unfold inches. now rewrite toFixed2_nonneg by apply pixels_over_dpi_nonneg.
Qed.

Lemma image_loaded_exec w i u nw nh :
  nth_error (reads w) i = Some u ->
  exec (dispatch (ImageLoaded i nw nh)) w
  = on_st (with_height (inches nh))
      (on_st (with_width (inches nw)) (on_reads (remove_nth i) w)).
Proof.
  intros H. unfold dispatch. rewrite exec_bind. simpl. rewrite H.
  reflexivity.
Qed.

Lemma image_failed_exec w i u :
  nth_error (reads w) i = Some u ->
  exec (dispatch (ImageFailed i)) w
  = emit (Warn "Could not read image dimensions:")
      (on_reads (remove_nth i) w).
Proof.
  intros H. unfold dispatch. rewrite exec_bind. simpl. rewrite H.
  reflexivity.
Qed.

(** C7. When the image of a pending dimension read loads with natural size
    [nw] x [nh], the width and height become [nw / 300] and [nh / 300]
    rounded to a nearest hundredth and clamped into [0.5, 22.5], so both lie
    in that range; when the image fails to load, the state and the refs are
    as before and the only effect is one warning. *)
Theorem dimensions_read_from_image (w : World) (i : nat) (u : Url) (nw nh : N) :
  reachable w -> nth_error (reads w) i = Some u ->
  let loaded := step w (ImageLoaded i nw nh) in
  let failed := step w (ImageFailed i) in
  (width (st loaded) = inches nw /\ height (st loaded) = inches nh)
  /\ (exists k : Z,
        Qabs ((k # 100) - inject_Z (Z.of_N nw) / 300) <= 1 # 200
        /\ inches nw = Qmin (45 # 2) (Qmax (1 # 2) (k # 100)))
  /\ (exists k : Z,
        Qabs ((k # 100) - inject_Z (Z.of_N nh) / 300) <= 1 # 200
        /\ inches nh = Qmin (45 # 2) (Qmax (1 # 2) (k # 100)))
  /\ ((1 # 2) <= width (st loaded) <= (45 # 2)
      /\ (1 # 2) <= height (st loaded) <= (45 # 2))
  /\ (st failed = st w /\ refs failed = refs w /\ calls failed = calls w
      /\ log failed = log w ++ [Warn "Could not read image dimensions:"]).
Proof.
  intros R H loaded failed. apply reachable_settled in R.
  assert (EL : loaded = exec (dispatch (ImageLoaded i nw nh)) w).
  { apply step_quiet. rewrite (image_loaded_exec w i u nw nh H). exact R. }
  assert (EF : failed = exec (dispatch (ImageFailed i)) w).
  { apply step_quiet. rewrite (image_failed_exec w i u H). exact R. }
  rewrite (image_loaded_exec w i u nw nh H) in EL.
  rewrite (image_failed_exec w i u H) in EF.
  rewrite EL, EF. simpl.
  repeat split; try apply inches_spec; try apply inches_in_range.
Qed.

Lemma dimensions_read_from_image_witness :
  let w := run Scenarios.upload_processed initialWorld in
  let loaded := step w (ImageLoaded 1 1234 600) in
  let failed := step w (ImageFailed 1) in
  (width (st loaded) = inches 1234 /\ height (st loaded) = inches 600)
  /\ (st failed = st w
      /\ log failed = log w ++ [Warn "Could not read image dimensions:"]).
Proof.
  intros w loaded failed.
  destruct (dimensions_read_from_image w 1 "blob:0"%string 1234 600)
    as (A & _ & _ & _ & B & _ & _ & C).
  - exists Scenarios.upload_processed. reflexivity.
  - reflexivity.
  - split; [exact A|split; [exact B|exact C]].
Defined.

End DimensionFacts.

Section ToggleFacts.

Import ProductCustomizer.

Lemma nonempty_true (s : string) : s <> ""%string -> Js.str_nonempty s = true.
Proof. destruct s; [congruence|reflexivity]. Qed.

Lemma fetches_snoc_other l e : is_fetch e = false -> fetches (l ++ [e]) = fetches l.
Proof.
  intros H. unfold fetches. rewrite filter_app. simpl. rewrite H.
  apply app_nil_r.
Qed.

(** Toggling off with an original at hand: no call is touched. *)
Lemma toggle_off_exec w ou ob :
  originalImageUrl (st w) = Some ou -> ou <> ""%string ->
  originalImageBlob (st w) = Some ob ->
  exec (dispatch (ToggleRemoveBg false)) w
  = emit (LoadImage ou)
      (on_reads (fun l => l ++ [ou])
        (on_st (with_finalImageUrl (Js.or_null (originalServerUrl (st w))))
          (on_st (with_currentImageBlob (Some ob))
            (on_st (with_imageUrl (Some ou))
              (on_refs (with_currentBlobUrlRef (Some ou))
                (on_st (with_removeBgEnabled false) w)))))).
Proof.
  intros Hu Hne Hb. apply nonempty_true in Hne.
  destruct w as [s r cs rd nc no lg]. simpl in *.
  unfold dispatch, handleToggleRemoveBg, exec, bind, gets; simpl.
  rewrite Hu, Hb. simpl. rewrite Hne. reflexivity.
Qed.

(** Toggling on with a processed image at hand: no call is touched. *)
Lemma toggle_on_exec w pu pb :
  processedImageUrl (st w) = Some pu -> pu <> ""%string ->
  processedImageBlob (st w) = Some pb ->
  exec (dispatch (ToggleRemoveBg true)) w
  = emit (LoadImage pu)
      (on_reads (fun l => l ++ [pu])
        (on_st (with_finalImageUrl (Js.or_null (processedServerUrl (st w))))
          (on_st (with_currentImageBlob (Some pb))
            (on_st (with_imageUrl (Some pu))
              (on_refs (with_currentBlobUrlRef (Some pu))
                (on_st (with_removeBgEnabled true) w)))))).
Proof.
  intros Hu Hne Hb. apply nonempty_true in Hne.
  destruct w as [s r cs rd nc no lg]. simpl in *.
  unfold dispatch, handleToggleRemoveBg, exec, bind, gets; simpl.
  rewrite Hu, Hb. simpl. rewrite Hne. reflexivity.
Qed.

(** C6. With a processed image whose server URL is [R1] and an original
    whose server URL is [O] both at hand, toggling off shows the original
    and offers [O] to the cart, toggling on again shows the processed image
    and offers [R1]; neither toggle issues a request or touches a call. *)
Theorem toggle_reuses_cached_images
    (w : World) (pu ou R1 O : Url) (pb ob : Blob) :
  reachable w ->
  processedImageUrl (st w) = Some pu -> pu <> ""%string ->
  processedImageBlob (st w) = Some pb ->
  processedServerUrl (st w) = Some R1 -> R1 <> ""%string ->
  originalImageUrl (st w) = Some ou -> ou <> ""%string ->
  originalImageBlob (st w) = Some ob ->
  originalServerUrl (st w) = Some O -> O <> ""%string ->
  let off := step w (ToggleRemoveBg false) in
  let back := step off (ToggleRemoveBg true) in
  (imageUrl (st off) = originalImageUrl (st off)
   /\ imageUrl (st off) = Some ou
   /\ currentImageBlob (st off) = Some ob
   /\ cartImageUrl (st off) = Some O)
  /\ (imageUrl (st back) = processedImageUrl (st back)
      /\ imageUrl (st back) = Some pu
      /\ currentImageBlob (st back) = Some pb
      /\ cartImageUrl (st back) = Some R1)
  /\ fetches (log off) = fetches (log w)
  /\ fetches (log back) = fetches (log w)
  /\ calls off = calls w /\ calls back = calls w.
Proof.
  intros R Hpu Npu Hpb Hps NR Hou Nou Hob Hos NO off back.
  apply reachable_settled in R.
  assert (Eoff : off = exec (dispatch (ToggleRemoveBg false)) w).
  { apply step_quiet. rewrite (toggle_off_exec w ou ob Hou Nou Hob). exact R. }
  rewrite (toggle_off_exec w ou ob Hou Nou Hob) in Eoff.
  assert (Eback : back = exec (dispatch (ToggleRemoveBg true)) off).
  { apply step_quiet.
    rewrite (toggle_on_exec off pu pb); rewrite ?Eoff; simpl; auto. }
  rewrite (toggle_on_exec off pu pb) in Eback
    by (rewrite ?Eoff; simpl; auto).
  apply nonempty_true in NR, NO.
  rewrite Eback, Eoff. unfold cartImageUrl. simpl.
  rewrite Hps, Hos, Hpu, Hou. unfold Js.or_null. simpl. rewrite NR, NO.
  repeat split; try reflexivity.
  - now rewrite fetches_snoc_other.
  - now rewrite !fetches_snoc_other.
Qed.

Lemma toggle_reuses_cached_images_witness :
  let w := run Scenarios.upload_processed initialWorld in
  let off := step w (ToggleRemoveBg false) in
  let back := step off (ToggleRemoveBg true) in
  cartImageUrl (st w) = Some Scenarios.P1
  /\ cartImageUrl (st off) = Some Scenarios.O1
  /\ cartImageUrl (st back) = Some Scenarios.P1
  /\ fetches (log back) = fetches (log w).
Proof.
  intros w off back.
  destruct (toggle_reuses_cached_images w "blob:0"%string "blob:a"%string
              Scenarios.P1 Scenarios.O1 "A-nobg"%string "A"%string)
    as ((_ & _ & _ & A) & (_ & _ & _ & B) & _ & C & _).
  - exists Scenarios.upload_processed. reflexivity.
  - reflexivity.
  - discriminate.
  - reflexivity.
  - reflexivity.
  - discriminate.
  - reflexivity.
  - discriminate.
  - reflexivity.
  - reflexivity.
  - discriminate.
  - split; [reflexivity|split; [exact A|split; [exact B|exact C]]].
Defined.

End ToggleFacts.

Section ProcessingFacts.

Import ProductCustomizer.

Lemma forallb_filter {A} (f g : A -> bool) l :
  forallb f l = true -> forallb f (filter g l) = true.
Proof.
  rewrite !forallb_forall. intros H x Hx. apply filter_In in Hx.
  apply H. tauto.
Qed.

Lemma pending_not_aborted w sig c :
  settled w = true -> find (has_signal sig) (calls w) = Some c ->
  aborted c = false.
Proof.
  unfold settled. rewrite forallb_forall. intros H F.
  apply find_some in F. destruct F as [I _].
  apply negb_true_iff. now apply H.
Qed.

Lemma reachable_step w e : reachable w -> reachable (step w e).
Proof.
  intros [es ->]. exists (es ++ [e]). now rewrite run_snoc.
Qed.

(** What the rest of the [try] block and the [finally] block do to the
    state cells, whatever the refs hold. *)
Lemma onBlob_effect o b w :
  let w' := exec (onBlob o b ;; onSettled o) w in
  processedImageBlob (st w') = Some b
  /\ processedImageUrl (st w') = Some (fresh_url w)
  /\ imageUrl (st w') = Some (fresh_url w)
  /\ width (st w') = width (st w) /\ height (st w') = height (st w)
  /\ calls w' = calls w
  /\ reads w' = match o with
                | FromEnhance => reads w
                | _ => reads w ++ [fresh_url w]
                end.
Proof.
  destruct w as [s r cs rd nc no lg]. destruct r as [cur ab orig proc].
  destruct proc as [p|], cur as [c|];
  destruct o; unfold onBlob, onSettled, exec, bind, gets; simpl;
    repeat match goal with
           | |- context [when ?c _] => destruct c; simpl
           end;
    repeat split; reflexivity.
Qed.

Lemma body_read_step w sig c b :
  settled w = true ->
  find (has_signal sig) (calls w) = Some c -> stage c = AwaitBlob ->
  step w (BodyRead sig b)
  = exec (onBlob (origin c) b ;; onSettled (origin c))
      (on_calls (filter (fun k => negb (has_signal sig k))) w).
Proof.
  intros S F St. pose proof (pending_not_aborted w sig c S F) as Ab.
  assert (E : exec (dispatch (BodyRead sig b)) w
              = exec (onBlob (origin c) b ;; onSettled (origin c))
                  (on_calls (filter (fun k => negb (has_signal sig k))) w)).
  { unfold dispatch, resume, exec at 1. rewrite F, St, Ab. reflexivity. }
  rewrite <- E. apply step_quiet. rewrite E.
  unfold settled.
  destruct (onBlob_effect (origin c) b
              (on_calls (filter (fun k => negb (has_signal sig k))) w))
    as (_ & _ & _ & _ & _ & Hc & _).
  rewrite Hc. simpl. now apply forallb_filter.
Qed.

Lemma image_loaded_step w i u nw nh :
  settled w = true -> nth_error (reads w) i = Some u ->
  let w' := step w (ImageLoaded i nw nh) in
  width (st w') = inches nw /\ height (st w') = inches nh.
Proof.
  intros S H w'. unfold w'. rewrite step_quiet;
    rewrite (image_loaded_exec w i u nw nh H); [now split|exact S].
Qed.

(** C8. When the body of a processing call arrives, the processed image
    and the preview are replaced and the width and height stay as they are.
    After Enhance no dimension read is started; after a remove-background
    call a read of the new image is started, and its result becomes the
    width and height. *)
Theorem enhance_keeps_size_removeBg_rereads
    (w : World) (sig : nat) (c : Call) (b : Blob) :
  reachable w ->
  find (has_signal sig) (calls w) = Some c -> stage c = AwaitBlob ->
  let w' := step w (BodyRead sig b) in
  (processedImageBlob (st w') = Some b
   /\ processedImageUrl (st w') = Some (fresh_url w)
   /\ imageUrl (st w') = Some (fresh_url w))
  /\ (width (st w') = width (st w) /\ height (st w') = height (st w))
  /\ (origin c = FromEnhance -> reads w' = reads w)
  /\ (origin c <> FromEnhance ->
      reads w' = reads w ++ [fresh_url w]
      /\ forall nw nh,
           let w'' := step w' (ImageLoaded (List.length (reads w)) nw nh) in
           width (st w'') = inches nw /\ height (st w'') = inches nh).
Proof.
  intros R F St w'.
  pose proof (reachable_settled _ (reachable_step w (BodyRead sig b) R)) as S'.
  fold w' in S'.
  assert (E := body_read_step w sig c b (reachable_settled w R) F St).
  fold w' in E.
  destruct (onBlob_effect (origin c) b
              (on_calls (filter (fun k => negb (has_signal sig k))) w))
    as (A1 & A2 & A3 & A4 & A5 & _ & A7).
  rewrite <- E in A1, A2, A3, A4, A5, A7. simpl in A4, A5, A7.
  change (fresh_url (on_calls _ w)) with (fresh_url w) in *.
  split; [auto|]. split; [auto|]. split.
  - intros O. now rewrite O in A7.
  - intros O.
    assert (Rd : reads w' = reads w ++ [fresh_url w])
      by (destruct (origin c); congruence).
    split; [exact Rd|]. intros nw nh.
    apply (image_loaded_step w' _ (fresh_url w)); [exact S'|].
    rewrite Rd, nth_error_app2, Nat.sub_diag by apply Nat.le_refl.
    reflexivity.
Qed.

Lemma enhance_keeps_size_removeBg_rereads_witness :
  let w := run Scenarios.enhance_body_pending initialWorld in
  let v := run Scenarios.removeBg_body_pending initialWorld in
  let w' := step w (BodyRead 0 "A+"%string) in
  let v' := step v (BodyRead 0 "A-nobg"%string) in
  (imageUrl (st w') = Some "blob:0"%string
   /\ width (st w') = width (st w) /\ reads w' = reads w)
  /\ (imageUrl (st v') = Some "blob:0"%string
      /\ width (st (step v' (ImageLoaded 1 1234 600))) = inches 1234).
Proof.
  intros w v w' v'. split.
  - destruct (enhance_keeps_size_removeBg_rereads w 0
                {| origin := FromEnhance; stage := AwaitBlob; signal := 0;
                   aborted := false |} "A+"%string)
      as ((_ & _ & A) & (B & _) & C & _).
    + exists Scenarios.enhance_body_pending. reflexivity.
    + reflexivity.
    + reflexivity.
    + split; [exact A|split; [exact B|exact (C eq_refl)]].
  - destruct (enhance_keeps_size_removeBg_rereads v 0
                {| origin := FromRemoveBg; stage := AwaitBlob; signal := 0;
                   aborted := false |} "A-nobg"%string)
      as ((_ & _ & A) & _ & _ & D).
    + exists Scenarios.removeBg_body_pending. reflexivity.
    + reflexivity.
    + reflexivity.
    + split; [exact A|].
      destruct D as [_ D]; [discriminate|]. exact (proj1 (D 1234%N 600%N)).
Defined.

End ProcessingFacts.

(** ** Where the session departs from its own comments *)

Section SessionDefects.

Import ProductCustomizer.
Local Open Scope string_scope.

(** An answer for a call that is no longer suspended changes nothing. *)
Lemma late_answer_ignored w sig e :
  settled w = true -> find (has_signal sig) (calls w) = None ->
  (exists res, e = Responded sig res) \/ (exists b, e = BodyRead sig b)
  \/ e = FetchFailed sig \/ e = BodyFailed sig ->
  step w e = w.
Proof.
  intros S F H.
  assert (E : exec (dispatch e) w = w).
  { destruct H as [[res ->]|[[b ->]|[->| ->]]];
      unfold dispatch, resume, exec; now rewrite F. }
  rewrite step_quiet; rewrite E; auto.
Qed.

(** A request that fails outright (the [fetch] promise rejects, no abort)
    is reported and clears the loading flag of its handler; the images, the
    server URLs, the preview and the refs stay as they were. *)
Lemma fetch_failed_step w sig c :
  settled w = true ->
  find (has_signal sig) (calls w) = Some c -> stage c = AwaitFetch ->
  step w (FetchFailed sig)
  = on_st (loadingFlag (origin c) false)
      (emit (Error (failureMessage (origin c)))
         (on_calls (filter (fun k => negb (has_signal sig k))) w)).
Proof.
  intros S F St. pose proof (pending_not_aborted w sig c S F) as Ab.
  assert (E : exec (dispatch (FetchFailed sig)) w
              = on_st (loadingFlag (origin c) false)
                  (emit (Error (failureMessage (origin c)))
                     (on_calls (filter (fun k => negb (has_signal sig k))) w))).
  { unfold dispatch, resume, exec at 1. rewrite F, St, Ab. reflexivity. }
  rewrite <- E. apply step_quiet. rewrite E.
  unfold settled. simpl. now apply forallb_filter.
Qed.

(** C1. Toggle off, upload, Enhance succeeds: the preview shows the
    enhanced image while the cart is offered the server URL of the
    original, so the cart URL is not the one of the image on display. *)
Theorem cart_and_preview_disagree_after_enhance :
  let w := run Scenarios.enhance_with_toggle_off initialWorld in
  reachable w
  /\ removeBgEnabled (st w) = false
  /\ imageUrl (st w) = processedImageUrl (st w)
  /\ displayedKind (st w) = Some Processed
  /\ processedServerUrl (st w) = Some Scenarios.E1
  /\ cartImageUrl (st w) = Some Scenarios.O1
  /\ cart_matches_preview (st w) = false.
Proof.
  split; [exists Scenarios.enhance_with_toggle_off; reflexivity|].
  vm_compute. repeat split; reflexivity.
Qed.


(** C3. Upload with the toggle on, the endpoint answers 500 with an error
    page: the error page is stored as the processed image and put on
    display, and no error is reported. *)
Theorem server_error_stored_as_processed :
  let before := run [Upload "blob:a" (Some "A")] initialWorld in
  let w := run Scenarios.server_error_on_upload initialWorld in
  (processedImageBlob (st before) = None
   /\ displayedKind (st before) = Some Original)
  /\ processedImageBlob (st w) = Some "<html>Internal Server Error</html>"
  /\ currentImageBlob (st w) = Some "<html>Internal Server Error</html>"
  /\ displayedKind (st w) = Some Processed
  /\ filter is_error (log w) = [].
Proof.
  vm_compute. repeat split; reflexivity.
Qed.

(** C4. Upload and background removal, then Enhance, then Clear: the
    object URL made for the background-removed image is revoked twice.
    And with the toggle off, Enhance revokes the URL of the original while
    the state still holds it as the original's display URL, so that
    toggling on and off again shows a revoked URL and Clear revokes it a
    second time. *)
Theorem object_urls_revoked_twice :
  let w := run Scenarios.enhance_processed_then_clear initialWorld in
  let v := run Scenarios.enhance_with_toggle_off initialWorld in
  let shown := run [ToggleRemoveBg true; ToggleRemoveBg false] v in
  let cleared := step shown ClearDesign in
  (In (Create "blob:0" "A-nobg") (log w)
   /\ revocations "blob:0" (log w) = 2%nat)
  /\ (revocations "blob:a" (log v) = 1%nat
      /\ originalImageUrl (st v) = Some "blob:a"
      /\ originalBlobUrlRef (refs v) = Some "blob:a")
  /\ imageUrl (st shown) = Some "blob:a"
  /\ revocations "blob:a" (log cleared) = 2%nat.
Proof.
  vm_compute. repeat split; auto 10.
Qed.

End SessionDefects.

(** * More of the components *)

(** ** What every handler keeps *)

Section Preservation.

Import ProductCustomizer Invariants.

Lemma preserves_ret {A} P (a : A) : preserves P (ret a).
Proof. intros w H. exact H. Qed.

Lemma preserves_bind {A B} P (m : M A) (k : A -> M B) :
  preserves P m -> (forall a, preserves P (k a)) -> preserves P (bind m k).
Proof. intros Hm Hk w H. unfold bind. simpl. apply Hk, Hm, H. Qed.

Lemma preserves_gets_bind {A B} P (f : World -> A) (k : A -> M B) :
  (forall w0, P w0 -> preserves P (k (f w0))) ->
  preserves P (bind (gets f) k).
Proof. intros Hk w H. unfold bind, gets. simpl. now apply (Hk w H). Qed.

Lemma preserves_resume P sig want (k : Call -> M unit) :
  (forall c, preserves P (k c)) -> preserves P (resume sig want k).
Proof.
  intros Hk w H. unfold resume.
  destruct (find (has_signal sig) (calls w)) as [c|]; [|exact H].
  destruct (stage_eqb (stage c) want && negb (aborted c)); [|exact H].
  now apply Hk.
Qed.

Lemma preserves_settle P dead :
  (forall o, preserves P (onSettled o)) -> preserves P (settle dead).
Proof.
  intros Hs. induction dead as [|c dead IH]; [apply preserves_ret|].
  simpl. apply preserves_bind; [|intros _; apply preserves_bind; [apply Hs|intros _; exact IH]].
  unfold onRejected. simpl. apply preserves_ret.
Qed.

End Preservation.

(** Takes a handler apart along its binds and branches; [special] is tried
    first at every node, a step that does not touch what the predicate
    reads closes by conversion. *)
Ltac walk special :=
  repeat
    (cbv beta iota;
     first
      [ special
      | match goal with
        | |- Invariants.preserves _ (ProductCustomizer.ret _) =>
            apply preserves_ret
        | |- Invariants.preserves _
               (ProductCustomizer.bind (ProductCustomizer.gets _) _) =>
            apply preserves_gets_bind; intros ? ?
        | |- Invariants.preserves _ (ProductCustomizer.bind _ _) =>
            apply preserves_bind; [|intros ?]
        | |- Invariants.preserves _ (ProductCustomizer.resume _ _ _) =>
            apply preserves_resume; intros ?
        | |- Invariants.preserves _ (ProductCustomizer.when ?b _) =>
            destruct b; unfold ProductCustomizer.when
        | |- Invariants.preserves _ (match ?x with _ => _ end) => destruct x
        | |- Invariants.preserves _ (if ?b then _ else _) => destruct b
        | |- Invariants.preserves _
               (ProductCustomizer.set (ProductCustomizer.loadingFlag ?o) _) =>
            destruct o; intros ? ?; assumption
        | |- Invariants.preserves _ (ProductCustomizer.set _ _) =>
            intros ? ?; assumption
        | |- Invariants.preserves _ (ProductCustomizer.assign _ _) =>
            intros ? ?; assumption
        | |- Invariants.preserves _ (ProductCustomizer.modify _) =>
            intros ? ?; assumption
        | |- Invariants.preserves _ (ProductCustomizer.createObjectURL _) =>
            intros ? ?; assumption
        | |- Invariants.preserves _ (ProductCustomizer.revokeObjectURL ?o) =>
            destruct o; unfold ProductCustomizer.revokeObjectURL
        | |- Invariants.preserves _ (ProductCustomizer.getImageDimensionsInInches _) =>
            intros ? ?; assumption
        | |- Invariants.preserves _ (ProductCustomizer.console_warn _) =>
            intros ? ?; assumption
        | |- Invariants.preserves _ (ProductCustomizer.console_error _) =>
            intros ? ?; assumption
        end ]).

Section OneFlight.

Import ProductCustomizer Invariants.

Lemma live_map_mark c l :
  filter (fun k => negb (aborted k)) (map (mark_aborted c) l)
  = filter (fun k => negb (Nat.eqb (signal k) c))
      (filter (fun k => negb (aborted k)) l).
Proof.
  induction l as [|k l IH]; [reflexivity|].
  cbn [map filter]. rewrite IH. unfold mark_aborted.
  destruct (Nat.eqb (signal k) c) eqn:E; destruct (aborted k) eqn:Ab;
    cbn [aborted negb filter signal]; rewrite ?E, ?Ab; reflexivity.
Qed.

Lemma abort_kills_live w :
  one_flight w -> live (snd (abortCurrent w)) = [].
Proof.
  intros H. unfold abortCurrent, one_flight in *.
  destruct (abortControllerRef (refs w)) as [r|] eqn:R.
  - unfold live in *. cbn [snd calls emit on_calls]. rewrite live_map_mark.
    destruct (filter (fun c => negb (aborted c)) (calls w)) as [|c [|c' l]];
      [reflexivity| |contradiction].
    injection H as ->. cbn [filter]. now rewrite Nat.eqb_refl.
  - cbn [snd]. destruct (live w) as [|c [|c' l]];
      [reflexivity|discriminate|contradiction].
Qed.

Lemma abortCurrent_one_flight : preserves one_flight abortCurrent.
Proof.
  intros w H. unfold one_flight. now rewrite abort_kills_live.
Qed.

Lemma startProcessing_one_flight o b : preserves one_flight (startProcessing o b).
Proof.
  intros w H. apply abort_kills_live in H.
  unfold startProcessing, bind. cbn [fst snd].
  set (w1 := snd (abortCurrent w)) in *.
  unfold one_flight, live in *.
  destruct o; cbn; rewrite filter_app, H; reflexivity.
Qed.

Lemma filter_comm {A} (p q : A -> bool) l :
  filter p (filter q l) = filter q (filter p l).
Proof.
  induction l as [|a l IH]; [reflexivity|]. simpl.
  destruct (q a) eqn:Q, (p a) eqn:P; simpl; rewrite ?Q, ?P, IH; reflexivity.
Qed.

Lemma drop_call_one_flight sig : preserves one_flight (drop_call sig).
Proof.
  intros w H. unfold one_flight, live, drop_call in *. cbn.
  rewrite filter_comm.
  destruct (filter (fun c => negb (aborted c)) (calls w)) as [|c [|c' l]];
    try contradiction; simpl; [exact I|].
  destruct (negb (has_signal sig c)); simpl; [exact H|exact I].
Qed.

Lemma live_map_advance sig l :
  filter (fun k => negb (aborted k)) (map (advance sig) l)
  = map (advance sig) (filter (fun k => negb (aborted k)) l).
Proof.
  induction l as [|k l IH]; [reflexivity|]. cbn [map filter]. rewrite IH.
  unfold advance at 1. destruct (has_signal sig k); cbn [aborted];
    destruct (aborted k); reflexivity.
Qed.

Lemma advance_one_flight sig :
  preserves one_flight (modify (on_calls (map (advance sig)))).
Proof.
  intros w H. unfold one_flight, live in *. cbn. rewrite live_map_advance.
  destruct (filter (fun c => negb (aborted c)) (calls w)) as [|c [|c' l]];
    try contradiction; simpl; [exact I|].
  unfold advance. now destruct (has_signal sig c).
Qed.

Ltac one_flight_special :=
  idtac;
  match goal with
  | |- preserves _ (startProcessing _ _) => apply startProcessing_one_flight
  | |- preserves _ abortCurrent => apply abortCurrent_one_flight
  | |- preserves _ (drop_call _) => apply drop_call_one_flight
  | |- preserves _ (modify (on_calls (map (advance _)))) =>
      apply advance_one_flight
  end.

Lemma dispatch_one_flight e : preserves one_flight (dispatch e).
Proof.
  destruct e; unfold dispatch, handleImageUpload, handleRemoveBg,
    handleEnhance, handleClearDesign, handleToggleRemoveBg,
    handleCancelProcessing, unmount, onResponse, onBlob, onRejected,
    onSettled, updateDimensionsFromImageUrl;
    walk one_flight_special.
Qed.

Lemma filter_idem {A} (p : A -> bool) l : filter p (filter p l) = filter p l.
Proof.
  induction l as [|a l IH]; [reflexivity|]. simpl.
  destruct (p a) eqn:P; simpl; rewrite ?P, IH; reflexivity.
Qed.

Lemma onSettled_one_flight o : preserves one_flight (onSettled o).
Proof. destruct o; intros w H; exact H. Qed.

Lemma settle_aborted_one_flight : preserves one_flight settle_aborted.
Proof.
  unfold settle_aborted. apply preserves_gets_bind. intros w0 _.
  apply preserves_bind.
  - intros w H. unfold one_flight, live in *. cbn. now rewrite filter_idem.
  - intros _. apply preserves_settle, onSettled_one_flight.
Qed.

Lemma step_one_flight w e : one_flight w -> one_flight (step w e).
Proof.
  intros H. unfold step, exec.
  apply (preserves_bind one_flight (dispatch e) (fun _ => settle_aborted));
    [apply dispatch_one_flight|intros _; apply settle_aborted_one_flight|exact H].
Qed.

Lemma reachable_one_flight w : reachable w -> one_flight w.
Proof.
  intros [es ->]. induction es as [|e es IH] using rev_ind; [exact I|].
  rewrite run_snoc. now apply step_one_flight.
Qed.

Lemma reachable_calls w :
  reachable w ->
  calls w = []
  \/ exists c, calls w = [c] /\ aborted c = false
               /\ abortControllerRef (refs w) = Some (signal c).
Proof.
  intros R. pose proof (reachable_one_flight w R) as J.
  pose proof (reachable_settled w R) as S.
  unfold one_flight, live in J. unfold settled in S.
  rewrite (proj2 (filter_settled _ S)) in J.
  destruct (calls w) as [|c [|c' l]]; [now left| |contradiction].
  right. exists c. repeat split; [|exact J].
  simpl in S. rewrite andb_true_r in S. now apply negb_true_iff.
Qed.

(** X1. In every reachable world at most one processing call is suspended; its
    signal has not fired and [abortControllerRef] holds its controller. *)
Theorem single_call_in_flight w :
  reachable w ->
  (List.length (calls w) <= 1)%nat
  /\ forall c, In c (calls w) ->
       aborted c = false /\ abortControllerRef (refs w) = Some (signal c).
Proof.
  intros R. destruct (reachable_calls w R) as [E|(c & E & Ab & Rf)];
    rewrite E; cbn [List.length In].
  - split; [lia|]. intros c [].
  - split; [lia|]. intros c' [<-|[]]. now split.
Qed.

End OneFlight.

Section ServerUrls.

Import ProductCustomizer Invariants.

Lemma prefix_append (a b : string) : String.prefix a (a ++ b) = true.
Proof.
  induction a as [|c a IH]; simpl; [now destruct b|].
  now destruct (Ascii.ascii_dec c c).
Qed.

Lemma server_ok_build path : server_ok (buildServerUrl path).
Proof.
  unfold buildServerUrl. destruct path as [s|]; [|exact I].
  destruct (negb (Js.str_nonempty s)); [exact I|].
  unfold server_ok, Js.startsWith.
  set (p := if Js.startsWith "/" s
            then String.substring 1 (String.length s - 1) s else s).
  change (String.prefix (API_BASE ++ "/") ((API_BASE ++ "/") ++ p) = true).
  apply prefix_append.
Qed.

Lemma server_ok_or_null o : server_ok o -> server_ok (Js.or_null o).
Proof. unfold Js.or_null. now destruct (Js.truthy_str o). Qed.

Lemma set_processedServerUrl_ok v :
  server_ok v -> preserves server_urls_ok (set with_processedServerUrl v).
Proof. intros Hv w (A & B & C). repeat split; assumption. Qed.

Lemma set_originalServerUrl_ok v :
  server_ok v -> preserves server_urls_ok (set with_originalServerUrl v).
Proof. intros Hv w (A & B & C). repeat split; assumption. Qed.

Lemma set_finalImageUrl_ok v :
  server_ok v -> preserves server_urls_ok (set with_finalImageUrl v).
Proof. intros Hv w (A & B & C). repeat split; assumption. Qed.

Lemma abortCurrent_server : preserves server_urls_ok abortCurrent.
Proof.
  intros w H. unfold abortCurrent.
  now destruct (abortControllerRef (refs w)).
Qed.

Lemma startProcessing_server o b : preserves server_urls_ok (startProcessing o b).
Proof.
  unfold startProcessing. apply preserves_bind; [apply abortCurrent_server|].
  intros _ w H. destruct o; exact H.
Qed.

Ltac server_value :=
  first
    [ exact I
    | apply server_ok_build
    | apply server_ok_or_null;
      match goal with
      | H : server_urls_ok ?w |- server_ok (_ (st ?w)) =>
          first [exact (proj1 H) | exact (proj1 (proj2 H)) | exact (proj2 (proj2 H))]
      end ].

Ltac server_special :=
  idtac;
  match goal with
  | |- preserves _ (startProcessing _ _) => apply startProcessing_server
  | |- preserves _ abortCurrent => apply abortCurrent_server
  | |- preserves _ (set with_processedServerUrl _) =>
      apply set_processedServerUrl_ok; server_value
  | |- preserves _ (set with_originalServerUrl _) =>
      apply set_originalServerUrl_ok; server_value
  | |- preserves _ (set with_finalImageUrl _) =>
      apply set_finalImageUrl_ok; server_value
  | |- preserves _ (drop_call _) => intros ? ?; assumption
  end.

Lemma dispatch_server e : preserves server_urls_ok (dispatch e).
Proof.
  destruct e; unfold dispatch, handleImageUpload, handleRemoveBg,
    handleEnhance, handleClearDesign, handleToggleRemoveBg,
    handleCancelProcessing, unmount, onResponse, onBlob, onRejected,
    onSettled, updateDimensionsFromImageUrl;
    walk server_special.
Qed.

Lemma onSettled_server o : preserves server_urls_ok (onSettled o).
Proof. destruct o; intros w H; exact H. Qed.

Lemma settle_aborted_server : preserves server_urls_ok settle_aborted.
Proof.
  unfold settle_aborted. apply preserves_gets_bind. intros w0 _.
  apply preserves_bind; [intros w H; exact H|].
  intros _. apply preserves_settle, onSettled_server.
Qed.

Lemma reachable_server w : reachable w -> server_urls_ok w.
Proof.
  intros [es ->]. induction es as [|e es IH] using rev_ind.
  - repeat split.
  - rewrite run_snoc. unfold step, exec.
    apply (preserves_bind server_urls_ok (dispatch e) (fun _ => settle_aborted));
      [apply dispatch_server|intros _; apply settle_aborted_server|exact IH].
Qed.

End ServerUrls.

Section Sizes.

Import ProductCustomizer Invariants.

Lemma two_decimals_min a b :
  SizeControls.two_decimals a -> SizeControls.two_decimals b ->
  SizeControls.two_decimals (Qmin a b).
Proof.
  intros [k Hk] [j Hj]. destruct (Q.min_spec a b) as [[_ E]|[_ E]].
  - exists k. now rewrite E.
  - exists j. now rewrite E.
Qed.

Lemma two_decimals_max a b :
  SizeControls.two_decimals a -> SizeControls.two_decimals b ->
  SizeControls.two_decimals (Qmax a b).
Proof.
  intros [k Hk] [j Hj]. destruct (Q.max_spec a b) as [[_ E]|[_ E]].
  - exists j. now rewrite E.
  - exists k. now rewrite E.
Qed.

Lemma good_size_inches n : good_size (inches n).
Proof.
  split.
  - exact (inches_in_range n).
  - unfold inches. apply two_decimals_min; [now exists 2250%Z|].
    apply two_decimals_max; [now exists 50%Z|apply toFixed2_two_decimals].
Qed.

Lemma good_size_clamp v : good_size (SizeControls.clamp v).
Proof. split; [apply clamp_in_range|apply clamp_two_decimals]. Qed.

Lemma set_width_sized v : good_size v -> preserves sized (set with_width v).
Proof. intros Hv w [A B]. split; assumption. Qed.

Lemma set_height_sized v : good_size v -> preserves sized (set with_height v).
Proof. intros Hv w [A B]. split; assumption. Qed.

Lemma abortCurrent_sized : preserves sized abortCurrent.
Proof.
  intros w H. unfold abortCurrent. now destruct (abortControllerRef (refs w)).
Qed.

Lemma startProcessing_sized o b : preserves sized (startProcessing o b).
Proof.
  unfold startProcessing. apply preserves_bind; [apply abortCurrent_sized|].
  intros _ w H. destruct o; exact H.
Qed.

Ltac sized_special :=
  idtac;
  match goal with
  | |- preserves _ (startProcessing _ _) => apply startProcessing_sized
  | |- preserves _ abortCurrent => apply abortCurrent_sized
  | |- preserves _ (set with_width _) =>
      apply set_width_sized, good_size_inches
  | |- preserves _ (set with_height _) =>
      apply set_height_sized, good_size_inches
  | |- preserves _ (drop_call _) => intros ? ?; assumption
  end.

Lemma dispatch_sized e : preserves sized (dispatch e).
Proof.
  destruct e; unfold dispatch, handleImageUpload, handleRemoveBg,
    handleEnhance, handleClearDesign, handleToggleRemoveBg,
    handleCancelProcessing, unmount, onResponse, onBlob, onRejected,
    onSettled, updateDimensionsFromImageUrl;
    walk sized_special.
Qed.

Lemma onSettled_sized o : preserves sized (onSettled o).
Proof. destruct o; intros w H; exact H. Qed.

Lemma step_sized w e : sized w -> sized (step w e).
Proof.
  intros H. unfold step, exec.
  apply (preserves_bind sized (dispatch e) (fun _ => settle_aborted));
    [apply dispatch_sized| |exact H].
  intros _. unfold settle_aborted. apply preserves_gets_bind. intros w0 _.
  apply preserves_bind; [intros w1 H1; exact H1|].
  intros _. apply preserves_settle, onSettled_sized.
Qed.

Lemma perform_good a s :
  good_size (SizeControls.width s) -> good_size (SizeControls.height s) ->
  good_size (SizeControls.width (SizeControls.perform a s))
  /\ good_size (SizeControls.height (SizeControls.perform a s)).
Proof.
  intros Hw Hh. unfold good_size in *.
  destruct a as [| | | |e|e]; simpl.
  - destruct (fitHeight_ok (Qmin SizeControls.MAX_SIZE
      (Js.toFixed2 (SizeControls.width s + SizeControls.STEP_INCHES))) s)
      as (A & B & C & D); auto.
  - destruct (fitHeight_ok (Qmax SizeControls.MIN_SIZE
      (Js.toFixed2 (SizeControls.width s - SizeControls.STEP_INCHES))) s)
      as (A & B & C & D); auto.
  - destruct (fitWidth_ok (Qmin SizeControls.MAX_SIZE
      (Js.toFixed2 (SizeControls.height s + SizeControls.STEP_INCHES))) s)
      as (A & B & C & D); auto.
  - destruct (fitWidth_ok (Qmax SizeControls.MIN_SIZE
      (Js.toFixed2 (SizeControls.height s - SizeControls.STEP_INCHES))) s)
      as (A & B & C & D); auto.
  - destruct e as [value| |]; simpl.
    + destruct (Js.ge value SizeControls.MIN_SIZE
                && Js.le value SizeControls.MAX_SIZE) eqn:Ha; simpl.
      * apply (accepted_in_range value) in Ha.
        repeat split; try apply clamp_in_range; try apply clamp_two_decimals;
          try apply toFixed2_two_decimals; apply toFixed2_range; exact Ha.
      * now split.
    + split; [|exact Hh]. split; [split; discriminate|now exists 50%Z].
    + now split.
  - destruct e as [value| |]; simpl.
    + destruct (Js.ge value SizeControls.MIN_SIZE
                && Js.le value SizeControls.MAX_SIZE) eqn:Ha; simpl.
      * apply (accepted_in_range value) in Ha.
        repeat split; try apply clamp_in_range; try apply clamp_two_decimals;
          try apply toFixed2_two_decimals; apply toFixed2_range; exact Ha.
      * now split.
    + split; [exact Hw|]. split; [split; discriminate|now exists 50%Z].
    + now split.
Qed.

End Sizes.

Section AppFacts.

Import ProductCustomizer Invariants.

Lemma hundredth_times_100 (k : Z) : (k # 100) * 100 == inject_Z k.
Proof. unfold Qeq, inject_Z, Qmult; simpl. lia. Qed.

(** Rounding a non-negative number that already has two decimals gives it
    back. *)
Lemma toFixed2_fixed v :
  0 <= v -> SizeControls.two_decimals v -> Js.toFixed2 v == v.
Proof.
  intros H0 [k Hk]. rewrite (toFixed2_nonneg v H0).
  assert (E : v * 100 == inject_Z k) by (rewrite Hk; apply hundredth_times_100).
  destruct (nearest_hundredth_bounds k k v) as [A B];
    try (rewrite E; apply Qle_refl).
  assert (Js.nearest_hundredth v = k) by lia.
  now rewrite H, Hk.
Qed.

Lemma round64_small n :
  (Z.abs n < 2 ^ 53)%Z -> QuantityControl.round64 n = n.
Proof.
  intros H. unfold QuantityControl.round64. apply Z.ltb_lt in H.
  now rewrite H.
Qed.

Lemma round64_pos n : (1 <= n)%Z -> (1 <= QuantityControl.round64 n)%Z.
Proof.
  intros H. unfold QuantityControl.round64. rewrite (Z.abs_eq n) by lia.
  destruct (n <? 2 ^ 53)%Z eqn:S; [exact H|].
  apply Z.ltb_ge in S. rewrite (Z.sgn_pos n) by lia.
  set (e := (Z.log2 n - 52)%Z).
  assert (L : (53 <= Z.log2 n)%Z) by (apply Z.log2_le_pow2; lia).
  assert (E : (0 <= e)%Z) by (unfold e; lia).
  assert (P : (0 < 2 ^ e)%Z) by (apply Z.pow_pos_nonneg; lia).
  assert (B : (2 ^ e <= n)%Z).
  { apply Z.le_trans with (2 ^ Z.log2 n)%Z.
    - apply Z.pow_le_mono_r; unfold e; lia.
    - apply Z.log2_spec. lia. }
  assert (M : (1 <= n / 2 ^ e)%Z) by (apply Z.div_le_lower_bound; lia).
  set (m := (n / 2 ^ e)%Z) in *.
  assert (K : (1 <= (if n mod 2 ^ e <? 2 ^ (e - 1) then m
                     else if 2 ^ (e - 1) <? n mod 2 ^ e then m + 1
                          else if Z.even m then m else m + 1))%Z).
  { destruct (_ <? _)%Z; [exact M|]. destruct (_ <? _)%Z; [lia|].
    destruct (Z.even m); lia. }
  nia.
Qed.

Lemma increment_small q :
  (0 <= q)%Z -> (q < 2 ^ 53)%Z -> QuantityControl.increment q = (q + 1)%Z.
Proof.
  intros H0 H. unfold QuantityControl.increment.
  destruct (Z.eq_dec (q + 1) (2 ^ 53)) as [E|N].
  - rewrite E. reflexivity.
  - apply round64_small. lia.
Qed.

Lemma quantity_perform_pos a q :
  (1 <= q)%Z -> (1 <= QuantityControl.perform a q)%Z.
Proof.
  intros H. destruct a; cbn [QuantityControl.perform].
  - unfold QuantityControl.decrement. lia.
  - unfold QuantityControl.increment. apply round64_pos. lia.
  - unfold QuantityControl.change. lia.
Qed.

Lemma app_step_ok a e :
  sized (App.session a) -> (1 <= App.quantity a)%Z ->
  server_urls_ok (App.session a) ->
  sized (App.session (App.step a e)) /\ (1 <= App.quantity (App.step a e))%Z
  /\ server_urls_ok (App.session (App.step a e)).
Proof.
  intros S Q K. destruct e as [e|act|w h|act|b]; simpl.
  - split; [now apply step_sized|]. split; [exact Q|].
    unfold step, exec.
    apply (preserves_bind server_urls_ok (dispatch e) (fun _ => settle_aborted));
      [apply dispatch_server|intros _; apply settle_aborted_server|exact K].
  - split; [|split; [exact Q|exact K]].
    destruct S as [Sw Sh].
    exact (perform_good act (App.size_of (App.session a)) Sw Sh).
  - split; [|split; [exact Q|exact K]].
    split; apply good_size_clamp.
  - split; [exact S|]. split; [now apply quantity_perform_pos|exact K].
  - split; [exact S|split; [exact Q|exact K]].
Qed.

Lemma app_reachable_ok a :
  App.reachable a ->
  sized (App.session a) /\ (1 <= App.quantity a)%Z
  /\ server_urls_ok (App.session a).
Proof.
  intros [es ->]. induction es as [|e es IH] using rev_ind.
  - simpl. repeat split; try discriminate; try lia; now exists 1000%Z.
  - unfold App.run in *. rewrite fold_left_app. simpl.
    destruct IH as (S & Q & K). now apply app_step_ok.
Qed.

(** X11. Whatever the shopper does with the upload, the size row, the presets
    and the quantity row, the width and the height shown stay within
    [0.5, 22.5] with two decimals and the quantity stays at least 1. *)
Theorem app_sizes_and_quantity a :
  App.reachable a ->
  let s := st (App.session a) in
  SizeControls.in_range (width s) /\ SizeControls.in_range (height s)
  /\ SizeControls.two_decimals (width s) /\ SizeControls.two_decimals (height s)
  /\ (1 <= App.quantity a)%Z.
Proof.
  intros R. destruct (app_reachable_ok a R) as (((A & B) & (C & D)) & Q & _).
  simpl. auto.
Qed.

Lemma prefix_head a s1 b s2 :
  String.prefix (String a s1) (String b s2) = true -> a = b.
Proof.
  simpl. destruct (Ascii.ascii_dec a b); [trivial|discriminate].
Qed.

Lemma server_url_accepted u :
  server_ok (Some u) ->
  Js.str_nonempty u = true /\ Js.startsWith "blob:" u = false.
Proof.
  unfold server_ok, Js.startsWith. destruct u as [|c u]; [discriminate|].
  intros H. apply prefix_head in H. subst c. split; reflexivity.
Qed.

Lemma cart_url_server_ok w :
  server_urls_ok w -> server_ok (cartImageUrl (st w)).
Proof.
  intros (A & B & _). unfold cartImageUrl.
  destruct (removeBgEnabled (st w)); now apply server_ok_or_null.
Qed.

Lemma in_range_pos v : SizeControls.in_range v -> 0 < v.
Proof. intros [H _]. apply Qlt_le_trans with (1 # 2); [reflexivity|exact H]. Qed.

(** X12. In the running page the size checks of the cart button never block:
    the button is valid exactly when a server URL is projected and the
    variant id is truthy, and what it posts is the size on display, a
    quantity of at least 1 and a URL under [API_BASE]. *)
Theorem app_cart_button a variantId :
  App.reachable a ->
  let p := App.cartProps variantId a in
  AddToCartButton.isValid p
  = isSome (cartImageUrl (st (App.session a))) && Js.truthy variantId
  /\ forall s r, In r (snd (AddToCartButton.addToCart p s)) ->
       AddToCartButton._Area_x r == width (st (App.session a))
       /\ AddToCartButton._Area_y r == height (st (App.session a))
       /\ (1 <= AddToCartButton.req_quantity r)%Z
       /\ exists u, AddToCartButton.CustomImage r = Js.Str u
                    /\ Js.startsWith (API_BASE ++ "/") u = true.
Proof.
  intros R p. destruct (app_reachable_ok a R) as (((A & C) & (B & D)) & Q & K).
  pose proof (cart_url_server_ok _ K) as U.
  assert (V : AddToCartButton.isValid p
              = isSome (cartImageUrl (st (App.session a))) && Js.truthy variantId).
  { unfold AddToCartButton.isValid, AddToCartButton.isServerUrl, p, App.cartProps,
      cartButtonProps. cbn [AddToCartButton.imageUrl AddToCartButton.width
      AddToCartButton.height AddToCartButton.variantId].
    rewrite (proj2 (gt_true_iff _ 0) (in_range_pos _ A)).
    rewrite (proj2 (gt_true_iff _ 0) (in_range_pos _ B)).
    destruct (cartImageUrl (st (App.session a))) as [u|]; simpl; [|reflexivity].
    destruct (server_url_accepted u U) as [N Bl]. now rewrite N, Bl. }
  split; [exact V|]. intros s r. unfold AddToCartButton.addToCart.
  destruct (negb (AddToCartButton.isValid p) || AddToCartButton.isLoading s) eqn:G;
    simpl; [tauto|]. intros [<-|[]]. simpl.
  apply orb_false_iff in G. destruct G as [G _].
  apply negb_false_iff in G. rewrite V in G.
  repeat split.
  - apply toFixed2_fixed; [apply Qlt_le_weak, in_range_pos, A|exact C].
  - apply toFixed2_fixed; [apply Qlt_le_weak, in_range_pos, B|exact D].
  - exact Q.
  - destruct (cartImageUrl (st (App.session a))) as [u|]; [|discriminate].
    exists u. split; [reflexivity|exact U].
Qed.

End AppFacts.

Section Frames.

Import ProductCustomizer Invariants.

Lemma settle_frame dead w :
  let w' := exec (settle dead) w in
  quiet (st w') = quiet (st w) /\ refs w' = refs w /\ calls w' = calls w
  /\ reads w' = reads w /\ log w' = log w
  /\ controllers w' = controllers w /\ objectUrls w' = objectUrls w.
Proof.
  revert w. induction dead as [|c dead IH]; intros w; [now repeat split|].
  cbn [settle]. rewrite !exec_bind.
  specialize (IH (snd (onSettled (origin c) (snd (onRejected (origin c) true w))))).
  cbv zeta in IH. destruct IH as (A & B & C & D & E & F & G).
  cbv zeta. rewrite A, B, C, D, E, F, G.
  destruct (origin c); now repeat split.
Qed.

(** A step is its handler followed by the settling of the cancelled
    calls, which lowers loading flags and drops those calls only. *)
Lemma step_frame w e :
  let d := exec (dispatch e) w in
  quiet (st (step w e)) = quiet (st d) /\ refs (step w e) = refs d
  /\ calls (step w e) = live d /\ reads (step w e) = reads d
  /\ log (step w e) = log d
  /\ controllers (step w e) = controllers d
  /\ objectUrls (step w e) = objectUrls d.
Proof.
  intros d.
  assert (S : step w e
              = exec (settle (filter aborted (calls d)))
                  (on_calls (filter (fun c => negb (aborted c))) d))
    by reflexivity.
  rewrite S.
  destruct (settle_frame (filter aborted (calls d))
              (on_calls (filter (fun c => negb (aborted c))) d))
    as (A & B & C & D & E & F & G).
  cbv zeta in *. rewrite A, B, C, D, E, F, G. now repeat split.
Qed.

Lemma quiet_fields s s' :
  quiet s = quiet s' ->
  imageUrl s = imageUrl s' /\ width s = width s' /\ height s = height s'
  /\ currentImageBlob s = currentImageBlob s'
  /\ originalImageBlob s = originalImageBlob s'
  /\ processedImageBlob s = processedImageBlob s'
  /\ originalImageUrl s = originalImageUrl s'
  /\ processedImageUrl s = processedImageUrl s'
  /\ originalServerUrl s = originalServerUrl s'
  /\ processedServerUrl s = processedServerUrl s'
  /\ finalImageUrl s = finalImageUrl s'
  /\ removeBgEnabled s = removeBgEnabled s'
  /\ cartImageUrl s = cartImageUrl s'.
Proof.
  intros H.
  change (imageUrl (quiet s) = imageUrl (quiet s')
          /\ width (quiet s) = width (quiet s')
          /\ height (quiet s) = height (quiet s')
          /\ currentImageBlob (quiet s) = currentImageBlob (quiet s')
          /\ originalImageBlob (quiet s) = originalImageBlob (quiet s')
          /\ processedImageBlob (quiet s) = processedImageBlob (quiet s')
          /\ originalImageUrl (quiet s) = originalImageUrl (quiet s')
          /\ processedImageUrl (quiet s) = processedImageUrl (quiet s')
          /\ originalServerUrl (quiet s) = originalServerUrl (quiet s')
          /\ processedServerUrl (quiet s) = processedServerUrl (quiet s')
          /\ finalImageUrl (quiet s) = finalImageUrl (quiet s')
          /\ removeBgEnabled (quiet s) = removeBgEnabled (quiet s')
          /\ cartImageUrl (quiet s) = cartImageUrl (quiet s')).
  rewrite H. now repeat split.
Qed.

End Frames.

(** Runs a handler on a world whose parts are variables: unfolds the
    session's own definitions and nothing of strings or numbers. *)
Ltac run_session :=
  cbv beta iota zeta delta
    [ProductCustomizer.step ProductCustomizer.exec ProductCustomizer.dispatch
     ProductCustomizer.handleImageUpload ProductCustomizer.handleRemoveBg
     ProductCustomizer.handleEnhance ProductCustomizer.handleClearDesign
     ProductCustomizer.handleToggleRemoveBg
     ProductCustomizer.handleCancelProcessing ProductCustomizer.unmount
     ProductCustomizer.startProcessing ProductCustomizer.abortCurrent
     ProductCustomizer.newAbortController ProductCustomizer.fetch
     ProductCustomizer.updateDimensionsFromImageUrl
     ProductCustomizer.getImageDimensionsInInches
     ProductCustomizer.revokeObjectURL ProductCustomizer.console_error
     ProductCustomizer.console_warn ProductCustomizer.loadingFlag
     ProductCustomizer.endpointOf ProductCustomizer.isSome
     ProductCustomizer.bind ProductCustomizer.gets ProductCustomizer.modify
     ProductCustomizer.set ProductCustomizer.assign ProductCustomizer.when
     ProductCustomizer.ret fst snd negb andb
     ProductCustomizer.on_st ProductCustomizer.on_refs
     ProductCustomizer.on_calls ProductCustomizer.on_reads
     ProductCustomizer.emit
     ProductCustomizer.st ProductCustomizer.refs ProductCustomizer.calls
     ProductCustomizer.reads ProductCustomizer.controllers
     ProductCustomizer.objectUrls ProductCustomizer.log
     ProductCustomizer.abortControllerRef ProductCustomizer.currentBlobUrlRef
     ProductCustomizer.originalBlobUrlRef ProductCustomizer.processedBlobUrlRef
     ProductCustomizer.with_abortControllerRef
     ProductCustomizer.with_currentBlobUrlRef
     ProductCustomizer.with_originalBlobUrlRef
     ProductCustomizer.with_processedBlobUrlRef
     ProductCustomizer.with_imageUrl ProductCustomizer.with_width
     ProductCustomizer.with_height ProductCustomizer.with_currentImageBlob
     ProductCustomizer.with_originalImageBlob
     ProductCustomizer.with_processedImageBlob
     ProductCustomizer.with_originalImageUrl
     ProductCustomizer.with_processedImageUrl
     ProductCustomizer.with_originalServerUrl
     ProductCustomizer.with_processedServerUrl
     ProductCustomizer.with_finalImageUrl
     ProductCustomizer.with_loadingRemoveBg
     ProductCustomizer.with_loadingEnhance
     ProductCustomizer.with_removeBgEnabled
     ProductCustomizer.imageUrl ProductCustomizer.width
     ProductCustomizer.height ProductCustomizer.currentImageBlob
     ProductCustomizer.originalImageBlob ProductCustomizer.processedImageBlob
     ProductCustomizer.originalImageUrl ProductCustomizer.processedImageUrl
     ProductCustomizer.originalServerUrl ProductCustomizer.processedServerUrl
     ProductCustomizer.finalImageUrl ProductCustomizer.loadingRemoveBg
     ProductCustomizer.loadingEnhance ProductCustomizer.removeBgEnabled
     ProductCustomizer.cartImageUrl ProductCustomizer.fetches
     ProductCustomizer.is_fetch Js.or_null Js.truthy_str].

Ltac split_ifs :=
  repeat match goal with
         | |- context [if ?c then _ else _] =>
             lazymatch c with
             | context [if _ then _ else _] => fail
             | context [match _ with _ => _ end] => fail
             | _ => destruct c eqn:?; run_session
             end
         end.

Ltac count_fetches :=
  repeat rewrite filter_app; cbn [filter app ProductCustomizer.is_fetch];
  rewrite ?app_nil_r; reflexivity.

(** ** The loading flags *)

Section Flags.

Import ProductCustomizer Invariants.

Lemma settle_loadingEnhance dead w :
  loadingEnhance (st (exec (settle dead) w))
  = loadingEnhance (st w)
    && forallb (fun c => negb (is_enhance (origin c))) dead.
Proof.
  revert w. induction dead as [|c dead IH]; intros w;
    [now rewrite andb_true_r|].
  cbn [settle forallb]. rewrite !exec_bind, IH.
  destruct (origin c); cbn; rewrite ?andb_true_r; try reflexivity.
  now destruct (loadingEnhance (st w)).
Qed.

Lemma settle_loadingRemoveBg dead w :
  loadingRemoveBg (st (exec (settle dead) w))
  = loadingRemoveBg (st w)
    && forallb (fun c => is_enhance (origin c)) dead.
Proof.
  revert w. induction dead as [|c dead IH]; intros w;
    [now rewrite andb_true_r|].
  cbn [settle forallb]. rewrite !exec_bind, IH.
  destruct (origin c); cbn; rewrite ?andb_true_r; try reflexivity;
    now destruct (loadingRemoveBg (st w)).
Qed.

Lemma step_flags w e :
  let d := exec (dispatch e) w in
  loadingEnhance (st (step w e))
  = loadingEnhance (st d)
    && forallb (fun c => negb (is_enhance (origin c)))
         (filter aborted (calls d))
  /\ loadingRemoveBg (st (step w e))
     = loadingRemoveBg (st d)
       && forallb (fun c => is_enhance (origin c)) (filter aborted (calls d)).
Proof.
  intros d.
  assert (S : step w e
              = exec (settle (filter aborted (calls d)))
                  (on_calls (filter (fun c => negb (aborted c))) d))
    by reflexivity.
  rewrite S, settle_loadingEnhance, settle_loadingRemoveBg. now split.
Qed.

End Flags.

Ltac started o :=
  apply (Invariants.Started _ _ o);
  [reflexivity|reflexivity|reflexivity
  |let H := fresh in intros H; first [discriminate H|reflexivity|assumption]].

Ltac shape_run :=
  run_session; split_ifs;
  first [ apply Invariants.Same; reflexivity
        | apply Invariants.Stopped; reflexivity
        | started ProductCustomizer.FromUpload
        | started ProductCustomizer.FromRemoveBg
        | started ProductCustomizer.FromEnhance
        | started ProductCustomizer.FromToggle ].

Section HandlerFacts.

Import ProductCustomizer Invariants.

Lemma upload_shape w url file :
  let d := exec (dispatch (Upload url file)) w in
  match file with
  | Some _ => if removeBgEnabled (st w)
              then calls d = calls (snd (abortCurrent w))
                             ++ [request FromUpload (controllers w)]
                   /\ loadingEnhance (st d) = loadingEnhance (st w)
                   /\ loadingRemoveBg (st d) = true
              else calls d = calls w
                   /\ loadingEnhance (st d) = loadingEnhance (st w)
                   /\ loadingRemoveBg (st d) = loadingRemoveBg (st w)
  | None => calls d = calls w
            /\ loadingEnhance (st d) = loadingEnhance (st w)
            /\ loadingRemoveBg (st d) = loadingRemoveBg (st w)
  end.
Proof.
  destruct w as [s r cs rd nc no lg]. destruct r as [cur ab orig proc].
  destruct s. 
  destruct orig as [o|], proc as [p|], file as [f|], ab as [a|];
    run_session; split_ifs.
  all: repeat split; reflexivity.
Qed.

Lemma user_shape e w :
  match e with
  | RemoveBg | Enhance | ClearDesign | ToggleRemoveBg _ | CancelProcessing
  | Unmount => shape w (exec (dispatch e) w) (UploadPanel.needs_idle e)
  | _ => True
  end.
Proof.
  destruct w as [s r cs rd nc no lg]. destruct r as [cur ab orig proc].
  destruct s as [iu wd ht cb ob pb ou pu os ps fu lr le en].
  destruct e as [url file| | | |on| | |sig res|sig|sig b|sig|i nw nh|i];
    try exact I.
  - destruct cb as [b|], ab as [a|]; shape_run.
  - destruct cb as [b|], ab as [a|]; shape_run.
  - destruct orig as [o|], proc as [p|]; shape_run.
  - destruct on, ou as [u|], ob as [b|], pu as [u'|], pb as [b'|],
      ab as [a|]; shape_run.
  - destruct ab as [a|]; shape_run.
  - destruct orig as [o|], proc as [p|]; shape_run.
Qed.

Lemma answer_shape e w :
  match e with
  | Responded _ _ | FetchFailed _ | BodyRead _ _ | BodyFailed _
  | ImageLoaded _ _ _ | ImageFailed _ => shape w (exec (dispatch e) w) false
  | _ => True
  end.
Proof.
  destruct w as [s r cs rd nc no lg]. destruct r as [cur ab orig proc].
  destruct s as [iu wd ht cb ob pb ou pu os ps fu lr le en].
  destruct e as [url file| | | |on| | |sig res|sig|sig b|sig|i nw nh|i];
    try exact I;
    cbv beta iota delta [exec dispatch resume calls];
    try (destruct (find (has_signal sig) cs) as [c|] eqn:F;
         [destruct (stage_eqb (stage c) _ && negb (aborted c))|];
         try (apply Same; reflexivity)).
  - apply (Advanced _ _ sig); destruct (origin c);
      cbv beta iota zeta delta [onResponse];
      repeat match goal with
             | |- context [Js.truthy_str ?x] => destruct (Js.truthy_str x)
             end;
      run_session; reflexivity.
  - apply (Finished _ _ sig c); [exact F|..]; destruct (origin c);
      cbv beta iota delta [drop_call onRejected onSettled]; run_session;
      first [reflexivity|destruct le; reflexivity|destruct lr; reflexivity].
  - apply (Finished _ _ sig c); [exact F|..];
      destruct (origin c), proc as [p|], cur as [q|]; cbn [is_enhance negb];
      cbv beta iota delta [drop_call onBlob createObjectURL onSettled];
      run_session;
      repeat match goal with
             | |- context [Js.str_nonempty (fresh_url ?w)] =>
                 destruct (Js.str_nonempty (fresh_url w)); run_session
             end;
      split_ifs;
      first [reflexivity|destruct le; reflexivity|destruct lr; reflexivity].
  - apply (Finished _ _ sig c); [exact F|..]; destruct (origin c);
      cbv beta iota delta [drop_call onRejected onSettled]; run_session;
      first [reflexivity|destruct le; reflexivity|destruct lr; reflexivity].
  - run_session. destruct (nth_error rd i); apply Same; reflexivity.
  - run_session. destruct (nth_error rd i); apply Same; reflexivity.
Qed.

Lemma dispatch_shape e w :
  shape w (exec (dispatch e) w) (UploadPanel.needs_idle e).
Proof.
  pose proof (user_shape e w) as U. pose proof (answer_shape e w) as N.
  destruct e as [url file| | | |on| | |sig res|sig|sig b|sig|i nw nh|i];
    try exact U; try exact N.
  pose proof (upload_shape w url file) as H. cbv zeta in H.
  destruct file as [f|]; [destruct (removeBgEnabled (st w)) eqn:E|].
  - destruct H as (A & B & C).
    apply (Started _ _ FromUpload); [exact A|exact B|exact C|discriminate].
  - destruct H as (A & B & C). now apply Same.
  - destruct H as (A & B & C). now apply Same.
Qed.

End HandlerFacts.

Section FlagFacts.

Import ProductCustomizer Invariants.

Lemma abort_calls_nil w :
  calls w = [] -> calls (snd (abortCurrent w)) = [].
Proof.
  intros E. unfold abortCurrent.
  destruct (abortControllerRef (refs w)); cbn; now rewrite E.
Qed.

Lemma abort_calls_one w c :
  calls w = [c] -> abortControllerRef (refs w) = Some (signal c) ->
  calls (snd (abortCurrent w))
  = [{| origin := origin c; stage := stage c; signal := signal c;
        aborted := true |}].
Proof.
  intros E R. unfold abortCurrent. rewrite R. cbn. rewrite E. cbn.
  unfold mark_aborted. now rewrite Nat.eqb_refl.
Qed.

Lemma step_flags_ok w e :
  calls w = []
  \/ (exists c, calls w = [c] /\ aborted c = false
                /\ abortControllerRef (refs w) = Some (signal c)) ->
  flags_ok w -> flags_ok (step w e).
Proof.
  intros HC HF.
  destruct (step_frame w e) as (_ & _ & C & _).
  destruct (step_flags w e) as (FE & FR).
  cbv zeta in *. unfold flags_ok in *. rewrite C, FE, FR. unfold live.
  destruct (dispatch_shape e w)
    as [b A B1 B2|o A B1 B2 G|A B1 B2|sig A B1 B2|sig c F A B1 B2];
    rewrite A, B1, B2; clear A B1 B2 C FE FR;
    destruct HC as [E|(c0 & E & Ab & R)];
    rewrite ?(abort_calls_nil w E), ?(abort_calls_one w c0 E R);
    rewrite E in *; cbn [filter app aborted negb forallb map origin];
    rewrite ?Ab; cbn [filter app aborted negb forallb map origin request];
    rewrite ?andb_true_r.
  - exact HF.
  - exact HF.
  - destruct HF as [-> ->]. destruct o; cbn; split; auto.
  - destruct HF as [HE HR]. destruct o; cbn [is_enhance] in *;
      rewrite ?HE; try rewrite (G eq_refl) in *;
      destruct (origin c0); cbn in *; split; auto; try discriminate;
      try (intros _; rewrite ?andb_false_r; reflexivity).
  - now split.
  - now split.
  - exact HF.
  - unfold advance. destruct (has_signal sig c0);
      cbn [aborted origin]; rewrite Ab; cbn; rewrite ?andb_true_r; exact HF.
  - discriminate F.
  - cbn [find] in F. destruct (has_signal sig c0) eqn:S; [|discriminate].
    injection F as <-. cbn. destruct HF as [HE HR]. rewrite HE.
    destruct (is_enhance (origin c0)) eqn:I; cbn; split; auto.
    + now rewrite HR.
    + now rewrite andb_false_r.
Qed.

Lemma reachable_flags w : reachable w -> flags_ok w.
Proof.
  intros [es ->]. induction es as [|e es IH] using rev_ind.
  - split; reflexivity.
  - rewrite run_snoc. apply step_flags_ok; [|exact IH].
    apply reachable_calls. now exists es.
Qed.

(** X2. The loading flags follow the request in flight: the Enhance flag is
    up exactly while an enhance request is suspended, the Remove BG flag
    only while one of the other requests is, and the cart button is
    disabled by a flag only while a request can still be cancelled. *)
Theorem loading_flags_track_request w :
  reachable w ->
  (loadingEnhance (st w) = true
   <-> exists c, calls w = [c] /\ origin c = FromEnhance)
  /\ (loadingRemoveBg (st w) = true ->
      exists c, calls w = [c] /\ origin c <> FromEnhance)
  /\ (forall variantId preCut quantity,
        AddToCartButton.disabled
          (cartButtonProps variantId preCut quantity (st w)) = true ->
        calls w <> []).
Proof.
  intros R. pose proof (reachable_flags w R) as F.
  destruct (reachable_calls w R) as [E|(c & E & _)];
    unfold flags_ok in F; rewrite E in F.
  - destruct F as [FE FR]. split; [|split].
    + split; [congruence|]. intros (c & C & _). congruence.
    + congruence.
    + intros v p q. cbn. rewrite FE, FR. discriminate.
  - destruct F as [FE FR]. split; [|split].
    + rewrite FE. split.
      * intros I. exists c. split; [exact E|]. now destruct (origin c).
      * intros (c' & C & O). rewrite E in C. injection C as <-. now rewrite O.
    + intros L. exists c. split; [exact E|]. intros O.
      rewrite FR in L; [discriminate|]. now rewrite O.
    + intros v p q _. rewrite E. discriminate.
Qed.

(** X4. When a handler replaces a remove-background request by another one
    (a second upload, a toggle, Remove BG), the [finally] block of the
    cancelled call runs after the new call has raised the flag: the new
    request is in flight with [loadingRemoveBg] lowered.  The upload panel
    keeps the controls of these handlers disabled while a flag is up
    ([gated_loading_means_request]); this is what the handlers do when
    they are called all the same. *)
Theorem replaced_request_lowers_flag w e c c' :
  reachable w ->
  calls w = [c] -> origin c <> FromEnhance ->
  calls (step w e) = [c'] -> signal c' <> signal c ->
  origin c' <> FromEnhance ->
  loadingRemoveBg (st (step w e)) = false.
Proof.
  intros R E O E' S O'.
  destruct (reachable_calls w R) as [N|(c0 & E0 & Ab & Rf)]; [congruence|].
  rewrite E in E0. injection E0 as <-.
  destruct (step_frame w e) as (_ & _ & C & _).
  destruct (step_flags w e) as (_ & FR).
  cbv zeta in *. rewrite FR. rewrite C in E'. unfold live in E'.
  destruct (dispatch_shape e w)
    as [b A B1 B2|o A B1 B2 G|A B1 B2|sig A B1 B2|sig k F A B1 B2];
    rewrite A in E' |- *; rewrite ?(abort_calls_one w c E Rf) in E' |- *;
    rewrite ?E in E' |- *; try rewrite E in F;
    cbn [filter app aborted negb forallb map] in E' |- *.
  - rewrite Ab in E'. cbn in E'. congruence.
  - assert (I : is_enhance (origin c) = false) by now destruct (origin c).
    cbn [origin]. rewrite I. now rewrite andb_false_r.
  - discriminate E'.
  - exfalso. apply S. unfold advance in E'.
    destruct (has_signal sig c); cbn [aborted] in E'; rewrite Ab in E';
      cbn in E'; now injection E' as <-.
  - cbn [find] in F. destruct (has_signal sig c); [|discriminate].
    discriminate E'.
Qed.

End FlagFacts.

(** ** The handlers one by one *)

Ltac open_world w :=
  let s := fresh "s" in let r := fresh "r" in
  destruct w as [s r ?cs ?rd ?nc ?no ?lg];
  destruct r as [?cur ?ab ?orig ?proc];
  destruct s as [?iu ?wd ?ht ?cb ?ob ?pb ?ou ?pu ?os ?ps ?fu ?lr ?le ?en];
  cbn [ProductCustomizer.st ProductCustomizer.refs ProductCustomizer.calls
       ProductCustomizer.reads ProductCustomizer.controllers
       ProductCustomizer.objectUrls ProductCustomizer.log
       ProductCustomizer.currentImageBlob ProductCustomizer.originalImageBlob
       ProductCustomizer.processedImageBlob ProductCustomizer.loadingEnhance
       ProductCustomizer.loadingRemoveBg ProductCustomizer.removeBgEnabled
       ProductCustomizer.originalImageUrl ProductCustomizer.processedImageUrl]
    in *.

Section Handlers.

Import ProductCustomizer Invariants.

Lemma enhance_exec w b :
  currentImageBlob (st w) = Some b -> loadingEnhance (st w) = false ->
  let d := exec (dispatch Enhance) w in
  calls d
  = calls (snd (abortCurrent w)) ++ [request FromEnhance (controllers w)]
  /\ abortControllerRef (refs d) = Some (controllers w)
  /\ quiet (st d) = quiet (st w)
  /\ fetches (log d)
     = fetches (log w) ++ [Fetch ENHANCE_ENDPOINT b (controllers w)].
Proof.
  intros C L. open_world w. subst. destruct ab;
    run_session; repeat split; count_fetches.
Qed.

Lemma cancel_exec w :
  let d := exec (dispatch CancelProcessing) w in
  calls d = calls (snd (abortCurrent w)) /\ refs d = refs w
  /\ quiet (st d) = quiet (st w) /\ fetches (log d) = fetches (log w).
Proof.
  open_world w. destruct ab; run_session; repeat split; count_fetches.
Qed.

Lemma clear_exec w :
  let d := exec (dispatch ClearDesign) w in
  st d = {| imageUrl := None; width := width (st w); height := height (st w);
            currentImageBlob := None; originalImageBlob := None;
            processedImageBlob := None; originalImageUrl := None;
            processedImageUrl := None; originalServerUrl := None;
            processedServerUrl := None; finalImageUrl := None;
            loadingRemoveBg := loadingRemoveBg (st w);
            loadingEnhance := loadingEnhance (st w);
            removeBgEnabled := removeBgEnabled (st w) |}
  /\ calls d = calls w
  /\ abortControllerRef (refs d) = abortControllerRef (refs w)
  /\ objectUrls d = objectUrls w
  /\ fetches (log d) = fetches (log w).
Proof.
  open_world w. destruct orig, proc; run_session; split_ifs;
    repeat split; count_fetches.
Qed.

Lemma toggle_request_exec w b :
  originalImageBlob (st w) = Some b -> processedImageBlob (st w) = None ->
  let d := exec (dispatch (ToggleRemoveBg true)) w in
  calls d
  = calls (snd (abortCurrent w)) ++ [request FromToggle (controllers w)]
  /\ quiet (st d) = quiet (with_removeBgEnabled true (st w))
  /\ reads d = reads w
  /\ fetches (log d)
     = fetches (log w) ++ [Fetch REMOVE_BG_ENDPOINT b (controllers w)].
Proof.
  intros O P. open_world w. subst. destruct ab, pu;
    run_session; split_ifs; repeat split; count_fetches.
Qed.

Lemma upload_exec w url file :
  let d := exec (dispatch (Upload url file)) w in
  quiet (st d)
  = {| imageUrl := Some url; width := width (st w); height := height (st w);
       currentImageBlob := file; originalImageBlob := file;
       processedImageBlob := None; originalImageUrl := Some url;
       processedImageUrl := None; originalServerUrl := None;
       processedServerUrl := None; finalImageUrl := None;
       loadingRemoveBg := false; loadingEnhance := false;
       removeBgEnabled := removeBgEnabled (st w) |}
  /\ reads d = reads w ++ [url]
  /\ fetches (log d)
     = fetches (log w)
       ++ match file with
          | Some f => if removeBgEnabled (st w)
                      then [Fetch REMOVE_BG_ENDPOINT f (controllers w)] else []
          | None => []
          end.
Proof.
  open_world w. destruct orig, proc, file, ab;
    run_session; split_ifs; repeat split; count_fetches.
Qed.

End Handlers.

Section HandlerTheorems.

Import ProductCustomizer Invariants.

(** X5. An upload replaces the whole design: the preview and the original
    are the new file, nothing processed and no cart URL is left from the
    design before, the size and the toggle stay, the image is read for its
    dimensions, and one remove-background request leaves exactly when a
    file came with the URL and the toggle is on. *)
Theorem upload_starts_afresh w url file :
  let w' := step w (Upload url file) in
  (imageUrl (st w') = Some url /\ originalImageUrl (st w') = Some url
   /\ originalImageBlob (st w') = file /\ currentImageBlob (st w') = file)
  /\ (processedImageBlob (st w') = None /\ processedImageUrl (st w') = None)
  /\ (cartImageUrl (st w') = None /\ finalImageUrl (st w') = None)
  /\ (width (st w') = width (st w) /\ height (st w') = height (st w)
      /\ removeBgEnabled (st w') = removeBgEnabled (st w))
  /\ reads w' = reads w ++ [url]
  /\ fetches (log w')
     = fetches (log w)
       ++ match file with
          | Some f => if removeBgEnabled (st w)
                      then [Fetch REMOVE_BG_ENDPOINT f (controllers w)] else []
          | None => []
          end.
Proof.
  intros w'. destruct (step_frame w (Upload url file)) as (Q & _ & _ & Rd & L & _).
  destruct (upload_exec w url file) as (S & Rd' & L'). cbv zeta in *.
  fold w' in Q, Rd, L. rewrite S in Q.
  match type of Q with _ = ?R => change (quiet (st w') = quiet R) in Q end.
  apply quiet_fields in Q.
  destruct Q as (Q1 & Q2 & Q3 & Q4 & Q5 & Q6 & Q7 & Q8 & Q9 & Q10 & Q11 & Q12
                 & Q13).
  rewrite Q1, Q2, Q3, Q4, Q5, Q6, Q7, Q8, Q11, Q12, Q13, Rd, L, Rd', L'.
  unfold cartImageUrl. cbn.
  destruct (removeBgEnabled (st w)); repeat split; reflexivity.
Qed.

Lemma started_calls w e o :
  reachable w ->
  calls (exec (dispatch e) w)
  = calls (snd (abortCurrent w)) ++ [request o (controllers w)] ->
  calls (step w e) = [request o (controllers w)].
Proof.
  intros R E. destruct (step_frame w e) as (_ & _ & C & _). cbv zeta in C.
  rewrite C. unfold live. rewrite E, filter_app.
  pose proof (abort_kills_live w (reachable_one_flight w R)) as K.
  unfold live in K. rewrite K. reflexivity.
Qed.

(** X6. Enhance on an idle button cancels whatever request was running and
    leaves exactly one in flight: the enhance request with the image on
    display, under a fresh controller.  The Enhance flag is up, the
    Remove BG flag is down, and no other state cell has changed. *)
Theorem enhance_replaces_pending_request w b :
  reachable w ->
  currentImageBlob (st w) = Some b -> loadingEnhance (st w) = false ->
  let w' := step w Enhance in
  calls w' = [request FromEnhance (controllers w)]
  /\ abortControllerRef (refs w') = Some (controllers w)
  /\ loadingEnhance (st w') = true /\ loadingRemoveBg (st w') = false
  /\ quiet (st w') = quiet (st w)
  /\ fetches (log w')
     = fetches (log w) ++ [Fetch ENHANCE_ENDPOINT b (controllers w)].
Proof.
  intros R C L w'. destruct (enhance_exec w b C L) as (E1 & E2 & E3 & E4).
  destruct (step_frame w Enhance) as (Q & Rf & _ & _ & Lg & _).
  cbv zeta in *. fold w' in Q, Rf, Lg.
  assert (K : calls w' = [request FromEnhance (controllers w)])
    by now apply started_calls.
  pose proof (reachable_flags w' (reachable_step w Enhance R)) as F.
  unfold flags_ok in F. rewrite K in F. destruct F as [FE FR].
  rewrite Q, Rf, Lg. repeat split; auto.
Qed.

(** X7. Stop leaves no request in flight and both loading flags down, changes
    no other state cell and sends nothing; whatever the network answers
    afterwards is ignored. *)
Theorem stop_cancels_processing w :
  reachable w ->
  let w' := step w CancelProcessing in
  calls w' = []
  /\ loadingRemoveBg (st w') = false /\ loadingEnhance (st w') = false
  /\ quiet (st w') = quiet (st w)
  /\ fetches (log w') = fetches (log w)
  /\ (forall sig res, step w' (Responded sig res) = w')
  /\ (forall sig body, step w' (BodyRead sig body) = w').
Proof.
  intros R w'. destruct (cancel_exec w) as (E1 & E2 & E3 & E4).
  destruct (step_frame w CancelProcessing) as (Q & _ & C & _ & Lg & _).
  cbv zeta in *. fold w' in Q, C, Lg.
  assert (K : calls w' = []).
  { rewrite C. unfold live. rewrite E1.
    exact (abort_kills_live w (reachable_one_flight w R)). }
  pose proof (reachable_flags w' (reachable_step w CancelProcessing R)) as F.
  unfold flags_ok in F. rewrite K in F. destruct F as [FE FR].
  assert (S : settled w' = true) by apply step_settled.
  assert (N : forall sig, find (has_signal sig) (calls w') = None)
    by (intros sig; now rewrite K).
  rewrite Q, Lg. repeat split; auto.
  - intros sig res. apply (late_answer_ignored w' sig); eauto.
  - intros sig body. apply (late_answer_ignored w' sig); eauto.
Qed.

Lemma clear_step w :
  settled w = true -> step w ClearDesign = exec (dispatch ClearDesign) w.
Proof.
  intros S. apply step_quiet. unfold settled in *.
  destruct (clear_exec w) as (_ & C & _). cbv zeta in C. now rewrite C.
Qed.

(** X8. Clear design empties every image cell and the cart URL and keeps the
    size and the toggle, but it cancels nothing: a request in flight stays
    in flight with its loading flag and its controller, and no request is
    sent. *)
Theorem clear_keeps_request_running w :
  reachable w ->
  let w' := step w ClearDesign in
  (imageUrl (st w') = None /\ currentImageBlob (st w') = None
   /\ originalImageUrl (st w') = None /\ processedImageUrl (st w') = None
   /\ cartImageUrl (st w') = None)
  /\ (width (st w') = width (st w) /\ height (st w') = height (st w)
      /\ removeBgEnabled (st w') = removeBgEnabled (st w))
  /\ calls w' = calls w
  /\ loadingRemoveBg (st w') = loadingRemoveBg (st w)
  /\ loadingEnhance (st w') = loadingEnhance (st w)
  /\ abortControllerRef (refs w') = abortControllerRef (refs w)
  /\ fetches (log w') = fetches (log w).
Proof.
  intros R w'. unfold w'. rewrite (clear_step w (reachable_settled w R)).
  destruct (clear_exec w) as (S & C & A & _ & L). cbv zeta in *.
  rewrite S, C, A, L. unfold cartImageUrl. cbn.
  destruct (removeBgEnabled (st w)); repeat split; reflexivity.
Qed.

Lemma onBlob_keeps_original o b w :
  let w' := exec (onBlob o b ;; onSettled o) w in
  originalImageUrl (st w') = originalImageUrl (st w)
  /\ originalImageBlob (st w') = originalImageBlob (st w)
  /\ currentImageBlob (st w') = Some b.
Proof.
  open_world w. destruct o, proc, cur;
    cbv beta iota delta [onBlob createObjectURL onSettled];
    run_session;
    repeat match goal with
           | |- context [Js.str_nonempty (fresh_url ?w)] =>
               destruct (Js.str_nonempty (fresh_url w)); run_session
           end;
    split_ifs; repeat split; reflexivity.
Qed.

(** X9. So when [handleClearDesign] runs while a request waits for its body
    (the panel disables Remove while a flag is up, the handler itself does
    not look), the answer brings the processed image back: it is shown
    and becomes the current image, with no original behind it. *)
Theorem cleared_design_returns_with_late_answer w c b :
  reachable w ->
  calls w = [c] -> stage c = AwaitBlob ->
  let w' := step (step w ClearDesign) (BodyRead (signal c) b) in
  imageUrl (st w') = Some (fresh_url w)
  /\ currentImageBlob (st w') = Some b
  /\ processedImageBlob (st w') = Some b
  /\ originalImageUrl (st w') = None /\ originalImageBlob (st w') = None
  /\ calls w' = [].
Proof.
  intros R E St w'. unfold w'.
  rewrite (clear_step w (reachable_settled w R)).
  destruct (clear_exec w) as (S & C & _ & U & _). cbv zeta in *.
  set (w1 := exec (dispatch ClearDesign) w) in *.
  assert (S1 : settled w1 = true).
  { unfold settled. rewrite C. exact (reachable_settled w R). }
  assert (F : find (has_signal (signal c)) (calls w1) = Some c).
  { rewrite C, E. cbn. unfold has_signal. now rewrite Nat.eqb_refl. }
  rewrite (body_read_step w1 (signal c) c b S1 F St).
  set (w2 := on_calls (filter (fun k => negb (has_signal (signal c) k))) w1).
  destruct (onBlob_effect (origin c) b w2) as (P1 & P2 & P3 & _ & _ & P6 & _).
  destruct (onBlob_keeps_original (origin c) b w2) as (K1 & K2 & K3).
  cbv zeta in *.
  assert (Fr : fresh_url w2 = fresh_url w).
  { unfold fresh_url, w2, on_calls. cbn [objectUrls]. now rewrite U. }
  rewrite P3, K3, P1, K1, K2, P6, Fr. unfold w2. cbn [on_calls st calls].
  rewrite S, C, E. cbn. unfold has_signal. rewrite Nat.eqb_refl.
  repeat split; reflexivity.
Qed.

(** X10. Switching the toggle on when the original was kept but nothing
    processed is cached sends the original for background removal: that
    request is the only one in flight, and the preview is left as it is
    until the answer comes. *)
Theorem toggle_on_requests_missing_image w b :
  reachable w ->
  originalImageBlob (st w) = Some b -> processedImageBlob (st w) = None ->
  let w' := step w (ToggleRemoveBg true) in
  calls w' = [request FromToggle (controllers w)]
  /\ removeBgEnabled (st w') = true
  /\ imageUrl (st w') = imageUrl (st w)
  /\ width (st w') = width (st w) /\ height (st w') = height (st w)
  /\ reads w' = reads w
  /\ fetches (log w')
     = fetches (log w) ++ [Fetch REMOVE_BG_ENDPOINT b (controllers w)].
Proof.
  intros R O P w'. destruct (toggle_request_exec w b O P) as (E1 & E2 & E3 & E4).
  destruct (step_frame w (ToggleRemoveBg true)) as (Q & _ & _ & Rd & Lg & _).
  cbv zeta in *. fold w' in Q, Rd, Lg. rewrite E2 in Q.
  apply quiet_fields in Q.
  destruct Q as (Q1 & Q2 & Q3 & _ & _ & _ & _ & _ & _ & _ & _ & Q12 & _).
  rewrite Q1, Q2, Q3, Q12, Rd, Lg, E3, E4.
  split; [now apply started_calls|]. now destruct (st w).
Qed.

End HandlerTheorems.

(** ** The session behind the upload panel *)

Section Gating.

Import ProductCustomizer Invariants.

Import UploadPanel.





End Gating.

(** ** Cancelled calls *)

Section Cancellation.

Import ProductCustomizer Invariants UploadPanel.
Local Open Scope string_scope.




End Cancellation.

(** ** The controls, the price box, the loader, the crop and the viewer *)

Section QuantityFacts.

Import QuantityControl.

(** X17. The quantity never drops below 1, whatever is clicked or typed.
    Below 2^53 plus adds exactly one and plus followed by minus gives the
    quantity back; at 2^53 the binary64 sum is 2^53 again, so plus
    followed by minus lands one lower.  Text that is no number, zero or
    negative is read as 1 and a number from 1 on is taken as typed. *)
Theorem quantity_row_floor (q : Z) (a : action) :
  (1 <= q)%Z ->
  (1 <= perform a q)%Z
  /\ ((q < 2 ^ 53)%Z ->
      increment q = (q + 1)%Z /\ decrement (increment q) = q)
  /\ (increment (2 ^ 53) = (2 ^ 53)%Z
      /\ decrement (increment (2 ^ 53)) = (2 ^ 53 - 1)%Z)
  /\ change NaN = 1%Z
  /\ (forall n, (n <= 1)%Z -> change (Int n) = 1%Z)
  /\ (forall n, (1 <= n)%Z -> change (Int n) = n).
Proof.
  intros H. split; [now apply quantity_perform_pos|].
  split; [|split; [split; reflexivity|split; [reflexivity|split]]].
  - intros S. rewrite (increment_small q) by lia. split; [reflexivity|].
    unfold decrement. replace (q + 1 - 1)%Z with q by lia.
    rewrite round64_small by lia. lia.
  - intros n Hn. unfold change, or_one. destruct (Z.eqb_spec n 0); lia.
  - intros n Hn. unfold change, or_one. destruct (Z.eqb_spec n 0); lia.
Qed.

End QuantityFacts.

Section PriceFacts.

Import PricePreview.

Lemma ge_Z (a b : Z) : Js.ge (inject_Z a) (inject_Z b) = (b <=? a)%Z.
Proof. unfold Js.ge, Qle_bool. simpl. now rewrite !Z.mul_1_r. Qed.

Lemma le_Z (a b : Z) : Js.le (inject_Z a) (inject_Z b) = (a <=? b)%Z.
Proof. unfold Js.le, Qle_bool. simpl. now rewrite !Z.mul_1_r. Qed.

Lemma discount_of_quantity (q : Z) :
  discount (tierFor (inject_Z q))
  = if (q <=? 14)%Z then 0
    else if (q <=? 49)%Z then 2 # 10
    else if (q <=? 99)%Z then 3 # 10
    else if (q <=? 249)%Z then 4 # 10
    else 5 # 10.
Proof.
  unfold tierFor, DISCOUNT_TIERS, find, applies; cbn [minQty maxQty].
  change 1 with (inject_Z 1). change 14 with (inject_Z 14).
  change 15 with (inject_Z 15). change 49 with (inject_Z 49).
  change 50 with (inject_Z 50). change 99 with (inject_Z 99).
  change 100 with (inject_Z 100). change 249 with (inject_Z 249).
  change 250 with (inject_Z 250).
  rewrite !ge_Z, !le_Z.
  repeat match goal with
         | |- context [(?a <=? ?b)%Z] => destruct (Z.leb_spec a b)
         end; simpl; try reflexivity; lia.
Qed.

(** X18. A larger whole quantity never gets a smaller volume discount, and
    the discount lies between 0 and one half. *)
Theorem discount_grows_with_quantity (q1 q2 : Z) :
  (q1 <= q2)%Z ->
  discount (tierFor (inject_Z q1)) <= discount (tierFor (inject_Z q2))
  /\ 0 <= discount (tierFor (inject_Z q1)) <= 1 # 2.
Proof.
  intros H. rewrite !discount_of_quantity.
  repeat match goal with
         | |- context [(?a <=? ?b)%Z] => destruct (Z.leb_spec a b)
         end; repeat split; try discriminate; lia.
Qed.

Lemma discount_bounds (q : Q) : 0 <= discount (tierFor q) <= 1 # 2.
Proof.
  unfold tierFor, DISCOUNT_TIERS, find.
  repeat match goal with
         | |- context [if ?b then _ else _] => destruct b
         end; simpl; split; discriminate.
Qed.

(** X19. For a design of non-negative size and a quantity of at least one, the
    discounted unit price lies between half the unit price and the unit
    price, the total between half of and the whole undiscounted amount, and
    the amount shown as saved is never negative. *)
Theorem price_between_half_and_full (width height quantity : Q) (preCut : bool) :
  0 <= width -> 0 <= height -> 1 <= quantity ->
  let p := pricing width height preCut quantity in
  0 <= unitPrice p
  /\ unitPrice p * (1 # 2) <= discountedUnitPrice p <= unitPrice p
  /\ unitPrice p * quantity * (1 # 2) <= totalPrice p <= unitPrice p * quantity
  /\ 0 <= savings p quantity.
Proof.
  intros Hw Hh Hq p.
  pose proof (discount_bounds quantity) as [D0 D1].
  assert (U : 0 <= unitPrice p).
  { unfold p, pricing, basePrice, PRICE_PER_SQIN, PRECUT_FEE. cbn [unitPrice].
    assert (0 <= width * height) by (apply Qmult_le_0_compat; assumption).
    destruct preCut; lra. }
  unfold savings. unfold p in *. unfold pricing in *.
  cbn [unitPrice discountedUnitPrice totalPrice] in *.
  set (u := basePrice + width * height * PRICE_PER_SQIN
            + (if preCut then PRECUT_FEE else 0)) in *.
  set (d := discount (tierFor quantity)) in *.
  assert (A1 : 0 <= u * d) by (apply Qmult_le_0_compat; assumption).
  assert (A2 : 0 <= u * ((1 # 2) - d))
    by (apply Qmult_le_0_compat; [assumption|lra]).
  assert (Q0 : 0 <= quantity) by lra.
  assert (A3 : 0 <= u * d * quantity)
    by (apply Qmult_le_0_compat; assumption).
  assert (A4 : 0 <= u * ((1 # 2) - d) * quantity)
    by (apply Qmult_le_0_compat; assumption).
  repeat split; try assumption; nra.
Qed.

End PriceFacts.

Section LoaderFacts.

Import UploadLoader.

Lemma value_bounds p : 0 <= value p <= 100.
Proof.
  unfold value. split.
  - apply Q.min_glb; [discriminate|apply Q.le_max_l].
  - apply Q.le_min_l.
Qed.

Lemma round_bounds (lo hi : Z) x :
  inject_Z lo <= x -> x <= inject_Z hi -> (lo <= round x <= hi)%Z.
Proof.
  intros Hlo Hhi. unfold round. split.
  - rewrite <- (Qfloor_Z lo). apply Qfloor_resp_le. lra.
  - apply Z.lt_succ_r. rewrite Zlt_Qlt.
    apply Qle_lt_trans with (x + (1 # 2)); [apply Qfloor_le|].
    unfold Z.succ. rewrite inject_Z_plus. change (inject_Z 1) with 1. lra.
Qed.

Lemma round_close x : Qabs (inject_Z (round x) - x) <= 1 # 2.
Proof.
  unfold round. pose proof (Qfloor_le (x + (1 # 2))) as L.
  pose proof (Qlt_floor (x + (1 # 2))) as U.
  rewrite inject_Z_plus in U. change (inject_Z 1) with 1 in U.
  set (n := inject_Z (Qfloor (x + (1 # 2)))) in *.
  apply Qabs_Qle_condition. split; lra.
Qed.

(** X20. Whatever progress value the loader is given, the percentage it prints
    is a whole number from 0 to 100 within one half of the width of the
    bar. *)
Theorem loader_percent_in_range (progress : Q) :
  (0 <= displayPercent progress <= 100)%Z
  /\ Qabs (inject_Z (displayPercent progress) - value progress) <= 1 # 2.
Proof.
  split; [|apply round_close].
  destruct (value_bounds progress). now apply round_bounds.
Qed.

(** One tick of the interval: its value grows with the time elapsed, never
    passes 90 and stays there from four seconds on; [finish] of it is 100
    exactly when the time elapsed was positive. *)
Lemma tick_facts (e1 e2 : Q) :
  0 <= e1 -> e1 <= e2 ->
  0 <= tick e1 /\ tick e1 <= tick e2 /\ tick e2 <= 90
  /\ (4000 <= e1 -> tick e1 == 90)
  /\ (displayPercent (tick e1) <= 90)%Z
  /\ finish (tick e1) == (if Qlt_le_dec 0 e1 then 100 else 0).
Proof.
  intros H1 H12. unfold tick, duration.
  assert (E : forall e, e / 4000 * 90 == e * (9 # 400)) by (intros; field).
  assert (L1 : 0 <= e1 / 4000 * 90) by (rewrite E; lra).
  assert (L12 : e1 / 4000 * 90 <= e2 / 4000 * 90) by (rewrite !E; lra).
  split; [apply Q.min_glb; [discriminate|exact L1]|].
  split; [apply Q.min_le_compat_l; exact L12|].
  split; [apply Q.le_min_l|].
  split; [intros H; apply Q.min_l; rewrite E; lra|].
  split.
  - apply round_bounds with (lo := 0%Z).
    + unfold value. apply Q.min_glb; [discriminate|apply Q.le_max_l].
    + unfold value. apply Qle_trans with (Qmax 0 (Qmin 90 (e1 / 4000 * 90))).
      * apply Q.le_min_r.
      * apply Q.max_lub; [discriminate|apply Q.le_min_l].
  - unfold finish. destruct (Qlt_le_dec 0 e1) as [P|P].
    + assert (G : 0 < Qmin 90 (e1 / 4000 * 90)).
      { apply Q.min_glb_lt; [reflexivity|rewrite E; lra]. }
      apply gt_true_iff in G. rewrite G. reflexivity.
    + assert (G : Qmin 90 (e1 / 4000 * 90) <= 0).
      { apply Qle_trans with (e1 / 4000 * 90); [apply Q.le_min_r|].
        rewrite E; lra. }
      destruct (Js.gt (Qmin 90 (e1 / 4000 * 90)) 0) eqn:GT; [|reflexivity].
      apply gt_true_iff in GT. lra.
Qed.

End LoaderFacts.

Section ProgressFacts.

Import UploadLoader ProgressEffect.

Lemma finish_values p : finish p = 0 \/ finish p = 100.
Proof. unfold finish. destruct (Js.gt p 0); [now right|now left]. Qed.

Lemma printed_le (hi : Z) p :
  (0 <= hi)%Z -> p <= inject_Z hi -> (displayPercent p <= hi)%Z.
Proof.
  intros H0 H. unfold displayPercent.
  apply (round_bounds 0 hi); unfold value.
  - apply Q.min_glb; [discriminate|apply Q.le_max_l].
  - apply Qle_trans with (Qmax 0 p); [apply Q.le_min_r|].
    apply Q.max_lub; [|exact H]. change 0 with (inject_Z 0).
    now rewrite <- Zle_Qle.
Qed.

Lemma progress_phases es :
  let s := run es initial in
  (loading s = true -> progress s <= 90)
  /\ (loading s = false -> progress s = 0 \/ progress s = 100)
  /\ (ticking s = true -> loading s = true).
Proof.
  induction es as [|e es IH] using rev_ind.
  - cbn. split; [discriminate|]. split; [now left|discriminate].
  - unfold run in *. rewrite fold_left_app. cbn [fold_left].
    set (s := fold_left step es initial) in *. cbv zeta in IH.
    destruct IH as (A & B & C). destruct e as [lr le|elapsed]; cbn [step].
    + destruct (negb lr && negb le); cbn [loading progress ticking].
      * split; [discriminate|]. split; [|discriminate].
        intros _. apply finish_values.
      * split; [discriminate|]. split; [discriminate|reflexivity].
    + destruct (ticking s) eqn:T;
        [|split; [exact A|split; [exact B|intros X; rewrite T in X; discriminate X]]].
      cbn [loading progress ticking]. rewrite (C eq_refl).
      split; [intros _; apply Q.le_min_l|]. split; [discriminate|reflexivity].
Qed.

(** X21. The progress behind the loader, by phase.  Once the effect has
    seen a loading flag up, the progress is at most 90 and the loader
    prints at most 90%; once it has seen both down, the progress is 0 or
    100.  The render that opens a run comes before the effect of that run,
    so after a run that ticked at a positive elapsed time and ended, the
    loader of the next run is first rendered with the 100 left behind and
    prints 100%; the effect then sets 0. *)
Theorem loader_progress_by_phase es lr le elapsed :
  lr || le = true -> 0 < elapsed ->
  let s := run es initial in
  let left := run (es ++ [Effect lr le; Interval elapsed; Effect false false])
                initial in
  (loading s = true -> progress s <= 90 /\ (printed s <= 90)%Z)
  /\ (loading s = false -> progress s = 0 \/ progress s = 100)
  /\ (loading left = false /\ progress left = 100 /\ printed left = 100%Z)
  /\ progress (step left (Effect lr le)) = 0.
Proof.
  intros L E s left. destruct (progress_phases es) as (A & B & _).
  cbv zeta in A, B. fold s in A, B.
  split; [|split; [exact B|]].
  - intros H. split; [now apply A|]. apply (printed_le 90); [lia|].
    now apply A.
  - assert (F : left = {| progress := 100; ticking := false;
                          loading := false |}).
    { unfold left, run. rewrite fold_left_app. cbn [fold_left step].
      fold (run es initial). fold s.
      assert (N : negb lr && negb le = false) by (destruct lr, le; auto; discriminate).
      rewrite N. cbn [ticking progress loading].
      change (negb false && negb false) with true. cbv iota.
      assert (G : Js.gt (tick elapsed) 0 = true).
      { apply gt_true_iff. unfold tick, duration.
        apply Q.min_glb_lt; [reflexivity|].
        assert (X : elapsed / 4000 * 90 == elapsed * (9 # 400)) by field.
        rewrite X. lra. }
      unfold finish. now rewrite G. }
    rewrite F. cbn [step loading progress].
    assert (N : negb lr && negb le = false) by (destruct lr, le; auto; discriminate).
    rewrite N. repeat split; reflexivity.
Qed.

Lemma loader_progress_by_phase_witness :
  let done := ProgressEffect.run
                [Effect true false; Interval 2000; Effect false false]
                ProgressEffect.initial in
  progress (ProgressEffect.run [Effect true false; Interval 2000]
              ProgressEffect.initial) <= 90
  /\ printed done = 100%Z
  /\ progress (step done (Effect false true)) = 0.
Proof.
  intros done.
  destruct (loader_progress_by_phase [Effect true false; Interval 2000]
              false true 2000) as (A & _).
  - reflexivity.
  - reflexivity.
  - destruct (loader_progress_by_phase [] true false 2000)
      as (_ & _ & (_ & _ & C) & _).
    + reflexivity.
    + reflexivity.
    + split; [apply A; reflexivity|]. split; [exact C|reflexivity].
Defined.

End ProgressFacts.

Section FreeSizeFacts.

Import FreeSizeControls.

Lemma toFixed2_between (lo hi : Z) x :
  0 <= x -> inject_Z lo <= x * 100 -> x * 100 <= inject_Z hi ->
  (lo # 100) <= Js.toFixed2 x <= (hi # 100).
Proof.
  intros H0 Hlo Hhi. rewrite (toFixed2_nonneg x H0).
  destruct (nearest_hundredth_bounds lo hi x Hlo Hhi) as [A B].
  unfold Qle; simpl. lia.
Qed.

(** X22. From a value in [0.25, 100] every action of the free size row (step
    up, step down, typed text of any kind) leaves it in [0.25, 100]. *)
Theorem free_size_stays_in_range (a : action) (prev : Q) :
  in_range prev -> in_range (perform a prev).
Proof.
  unfold in_range, MIN_SIZE, MAX_SIZE. intros [Hlo Hhi].
  destruct a as [| |e]; simpl.
  - unfold increment, MAX_SIZE, STEP_INCHES. split.
    + apply Q.min_glb; [discriminate|].
      destruct (toFixed2_between 50 10025 (prev + (25 # 100))) as [A _];
        unfold inject_Z; lra.
    + apply Q.le_min_l.
  - unfold decrement, MIN_SIZE, STEP_INCHES. split.
    + apply Q.le_max_l.
    + apply Q.max_lub; [discriminate|].
      destruct (toFixed2_between 0 9975 (prev - (25 # 100))) as [_ B];
        unfold inject_Z; lra.
  - destruct e as [value| |]; simpl.
    + unfold MIN_SIZE, MAX_SIZE.
      destruct (Js.ge value (25 # 100) && Js.le value 100) eqn:G;
        [|now split].
      apply andb_true_iff in G. destruct G as [G1 G2].
      unfold Js.ge in G1. unfold Js.le in G2.
      apply Qle_bool_iff in G1, G2.
      destruct (toFixed2_between 25 10000 value) as [A B];
        unfold inject_Z; try lra.
    + split; discriminate.
    + now split.
Qed.

End FreeSizeFacts.

Section RoundTrips.

Lemma toFixed2_comp x y : x == y -> Js.toFixed2 x == Js.toFixed2 y.
Proof.
  intros H. unfold Js.toFixed2, Js.lt, Js.nearest_hundredth.
  assert (A : Qle_bool 0 x = Qle_bool 0 y) by (now rewrite H).
  assert (B : Qfloor (x * 100 + (1 # 2)) = Qfloor (y * 100 + (1 # 2)))
    by (apply Qfloor_comp; now rewrite H).
  assert (C : Qfloor (- x * 100 + (1 # 2)) = Qfloor (- y * 100 + (1 # 2)))
    by (apply Qfloor_comp; now rewrite H).
  rewrite A, B, C. reflexivity.
Qed.

Lemma two_decimals_plus a b :
  SizeControls.two_decimals a -> SizeControls.two_decimals b ->
  SizeControls.two_decimals (a + b).
Proof.
  intros [k Hk] [j Hj]. exists (k + j)%Z. rewrite Hk, Hj.
  unfold Qeq, Qplus; simpl. lia.
Qed.

Import FreeSizeControls.

(** X23. On the free size row, stepping up and then down brings a two-decimal
    value back, as long as the step up stays below the ceiling; and
    stepping down and then up does, as long as the step down stays above
    the floor. *)
Theorem free_size_step_round_trip (prev : Q) :
  in_range prev -> SizeControls.two_decimals prev ->
  (prev + STEP_INCHES <= MAX_SIZE -> decrement (increment prev) == prev)
  /\ (MIN_SIZE <= prev - STEP_INCHES -> increment (decrement prev) == prev).
Proof.
  unfold in_range, MIN_SIZE, MAX_SIZE, STEP_INCHES. intros [Hlo Hhi] T.
  assert (Tq : SizeControls.two_decimals (25 # 100)) by (now exists 25%Z).
  assert (Tm : SizeControls.two_decimals (- (25 # 100))) by (now exists (-25)%Z).
  split; intros H.
  - assert (E1 : increment prev == prev + (25 # 100)).
    { unfold increment, MAX_SIZE, STEP_INCHES.
      rewrite (toFixed2_fixed (prev + (25 # 100)));
        [apply Q.min_r; exact H|lra|now apply two_decimals_plus]. }
    unfold decrement, MIN_SIZE, STEP_INCHES.
    rewrite (toFixed2_comp _ prev) by (rewrite E1; ring).
    rewrite (toFixed2_fixed prev) by (try assumption; lra).
    apply Q.max_r. exact Hlo.
  - assert (E1 : decrement prev == prev - (25 # 100)).
    { unfold decrement, MIN_SIZE, STEP_INCHES.
      rewrite (toFixed2_fixed (prev - (25 # 100)));
        [apply Q.max_r; exact H|lra|now apply two_decimals_plus]. }
    unfold increment, MAX_SIZE, STEP_INCHES.
    rewrite (toFixed2_comp _ prev) by (rewrite E1; ring).
    rewrite (toFixed2_fixed prev) by (try assumption; lra).
    apply Q.min_r. exact Hhi.
Qed.

End RoundTrips.

Section CropFacts.

Import ImageCropModal.

Lemma floor_pair_inside (a b : Q) (n : Z) :
  0 <= a -> 0 <= b -> a + b <= inject_Z n ->
  (0 <= Qfloor a)%Z /\ (0 <= Qfloor b)%Z /\ (Qfloor a + Qfloor b <= n)%Z.
Proof.
  intros Ha Hb Hab.
  assert (Fa : (0 <= Qfloor a)%Z)
    by (rewrite <- (Qfloor_Z 0); now apply Qfloor_resp_le).
  assert (Fb : (0 <= Qfloor b)%Z)
    by (rewrite <- (Qfloor_Z 0); now apply Qfloor_resp_le).
  repeat split; try assumption.
  rewrite Zle_Qle, inject_Z_plus.
  pose proof (Qfloor_le a). pose proof (Qfloor_le b). lra.
Qed.

(** X24. A crop rectangle that lies inside the displayed image is mapped to a
    source rectangle with non-negative corner and size that lies inside the
    natural image, on both axes. *)
Theorem crop_stays_inside_image (image : Image) (c : PixelCrop) :
  0 < width image -> 0 < height image ->
  0 <= x c -> 0 <= crop_width c -> x c + crop_width c <= width image ->
  0 <= y c -> 0 <= crop_height c -> y c + crop_height c <= height image ->
  let r := sourceRect image c in
  (0 <= sx r /\ 0 <= sw r /\ sx r + sw r <= Z.of_N (naturalWidth image))%Z
  /\ (0 <= sy r /\ 0 <= sh r /\ sy r + sh r <= Z.of_N (naturalHeight image))%Z.
Proof.
  intros Hw Hh Hx Hcw Hxw Hy Hch Hyh r.
  assert (Nw : 0 <= inject_Z (Z.of_N (naturalWidth image)))
    by (change 0 with (inject_Z 0); rewrite <- Zle_Qle; apply N2Z.is_nonneg).
  assert (Nh : 0 <= inject_Z (Z.of_N (naturalHeight image)))
    by (change 0 with (inject_Z 0); rewrite <- Zle_Qle; apply N2Z.is_nonneg).
  assert (Sx : 0 <= scaleX image)
    by (unfold scaleX; apply Qle_shift_div_l; [exact Hw|lra]).
  assert (Sy : 0 <= scaleY image)
    by (unfold scaleY; apply Qle_shift_div_l; [exact Hh|lra]).
  assert (Ex : width image * scaleX image == inject_Z (Z.of_N (naturalWidth image)))
    by (unfold scaleX; field; lra).
  assert (Ey : height image * scaleY image == inject_Z (Z.of_N (naturalHeight image)))
    by (unfold scaleY; field; lra).
  split; apply floor_pair_inside; try (apply Qmult_le_0_compat; assumption).
  - rewrite <- Ex, <- Qmult_plus_distr_l. now apply Qmult_le_compat_r.
  - rewrite <- Ey, <- Qmult_plus_distr_l. now apply Qmult_le_compat_r.
Qed.

End CropFacts.

Section ViewerFacts.

Import DesignViewer.

(** X25. A garment image of positive size is scaled so that it fits into 99% of
    the canvas on both axes and fills it on one of them; a logo is scaled
    to a quarter of the garment's scaled width. *)
Theorem garment_fits_canvas (width height hoodie logo : Q) :
  0 < width -> 0 < height -> 0 < logo ->
  let scale := baseScale width height in
  0 < scale
  /\ width * scale <= CANVAS_W * (99 # 100)
  /\ height * scale <= CANVAS_H * (99 # 100)
  /\ (width * scale == CANVAS_W * (99 # 100)
      \/ height * scale == CANVAS_H * (99 # 100))
  /\ logo * logoScale hoodie logo == hoodie * (1 # 4).
Proof.
  intros Hw Hh Hl scale. unfold scale, baseScale, CANVAS_W, CANVAS_H.
  set (a := 140 * (99 # 100) / width). set (b := 180 * (99 # 100) / height).
  assert (Ea : width * a == 140 * (99 # 100)) by (unfold a; field; lra).
  assert (Eb : height * b == 180 * (99 # 100)) by (unfold b; field; lra).
  assert (Pa : 0 < a) by (unfold a; apply Qlt_shift_div_l; [exact Hw|lra]).
  assert (Pb : 0 < b) by (unfold b; apply Qlt_shift_div_l; [exact Hh|lra]).
  split; [apply Q.min_glb_lt; assumption|].
  split.
  { rewrite <- Ea. apply Qmult_le_l; [exact Hw|apply Q.le_min_l]. }
  split.
  { rewrite <- Eb. apply Qmult_le_l; [exact Hh|apply Q.le_min_r]. }
  split.
  - destruct (Q.min_spec a b) as [[_ E]|[_ E]]; rewrite E; [now left|now right].
  - unfold logoScale. field. lra.
Qed.

End ViewerFacts.

Section PresetFacts.

Import SizeControls SizePresets.

Lemma clamp_comp x y : x == y -> clamp x == clamp y.
Proof.
  intros H. unfold clamp. apply toFixed2_comp. now rewrite H.
Qed.

Lemma clamp_fixed v : in_range v -> two_decimals v -> clamp v == v.
Proof.
  intros [Hlo Hhi] T. unfold clamp.
  assert (E : Qmin MAX_SIZE (Qmax MIN_SIZE v) == v).
  { rewrite (Q.max_r _ _ Hlo). now apply Q.min_r. }
  rewrite (toFixed2_comp _ v E). apply toFixed2_fixed; [|exact T].
  apply Qle_trans with MIN_SIZE; [discriminate|exact Hlo].
Qed.

Lemma clamp_close v : in_range v -> Qabs (clamp v - v) <= 1 # 200.
Proof.
  intros [Hlo Hhi]. unfold clamp.
  assert (E : Qmin MAX_SIZE (Qmax MIN_SIZE v) == v).
  { rewrite (Q.max_r _ _ Hlo). now apply Q.min_r. }
  assert (C : Js.toFixed2 (Qmin MAX_SIZE (Qmax MIN_SIZE v)) == Js.toFixed2 v)
    by (now apply toFixed2_comp).
  rewrite C. apply toFixed2_close.
  apply Qle_trans with MIN_SIZE; [discriminate|exact Hlo].
Qed.

Lemma lt_true_iff x y : Js.lt x y = true <-> x < y.
Proof. exact (gt_true_iff y x). Qed.

(** X15. Choosing a predefined size that is in range and has two decimals sets
    exactly that size, so its button shows as selected; with [disabled]
    set nothing changes. *)
Theorem preset_selects_itself (w h : Q) (s : Size) :
  in_range w -> in_range h -> two_decimals w -> two_decimals h ->
  let s' := selectPredefined false w h s in
  width s' == w /\ height s' == h /\ isSelected w h s' = true
  /\ selectPredefined true w h s = s.
Proof.
  intros Rw Rh Tw Th s'.
  assert (Ew : width s' == w) by (apply clamp_fixed; assumption).
  assert (Eh : height s' == h) by (apply clamp_fixed; assumption).
  split; [exact Ew|]. split; [exact Eh|]. split; [|reflexivity].
  unfold isSelected. apply andb_true_iff. split; apply lt_true_iff;
    apply Qabs_Qlt_condition; split; lra.
Qed.

(** X16. One click on the width "+" adds exactly one inch and moves the height
    along the aspect ratio (up to the rounding to two decimals), whenever
    the new width and the proportional height both fit the range. *)
Theorem increment_width_adds_an_inch (s : Size) :
  in_range (width s) -> in_range (height s) -> two_decimals (width s) ->
  width s + 1 <= MAX_SIZE ->
  in_range ((width s + 1) * (height s / width s)) ->
  let s' := incrementWidth s in
  width s' == width s + 1
  /\ Qabs (height s' - (width s + 1) * (height s / width s)) <= 1 # 200.
Proof.
  intros Rw Rh Tw Hfit Hprop s'.
  assert (Pw : 0 < width s)
    by (apply Qlt_le_trans with MIN_SIZE; [reflexivity|apply Rw]).
  assert (T1 : two_decimals (width s + 1))
    by (apply two_decimals_plus; [exact Tw|now exists 100%Z]).
  assert (N : Qmin MAX_SIZE (Js.toFixed2 (width s + STEP_INCHES)) == width s + 1).
  { unfold STEP_INCHES. rewrite (toFixed2_fixed (width s + 1)); [|lra|exact T1].
    now apply Q.min_r. }
  assert (AR : aspectRatio s = height s / width s).
  { unfold aspectRatio. now rewrite (proj2 (gt_true_iff _ 0) Pw). }
  set (newWidth := Qmin MAX_SIZE (Js.toFixed2 (width s + STEP_INCHES))) in *.
  assert (H' : newWidth * aspectRatio s == (width s + 1) * (height s / width s))
    by (now rewrite AR, N).
  assert (S : s' = updateWidthAndHeight newWidth (newWidth * aspectRatio s) s).
  { unfold s', incrementWidth, fitHeight. fold newWidth.
    destruct (Js.gt (newWidth * aspectRatio s) MAX_SIZE) eqn:G.
    - apply gt_true_iff in G. rewrite H' in G. destruct Hprop. lra.
    - destruct (Js.lt (newWidth * aspectRatio s) MIN_SIZE) eqn:L; [|reflexivity].
      apply lt_true_iff in L. rewrite H' in L. destruct Hprop. lra. }
  rewrite S. unfold updateWidthAndHeight.
  cbn [setWidth setHeight width height]. split.
  - rewrite (clamp_comp _ _ N). apply clamp_fixed; [|exact T1].
    split; [|exact Hfit]. destruct Rw. unfold MIN_SIZE in *. lra.
  - pose proof (clamp_comp _ _ H') as C. rewrite C. now apply clamp_close.
Qed.

End PresetFacts.

Section ButtonFacts.

Import AddToCartButton.

(** X14. Clicking twice in a row sends at most one request: whatever the first
    click did, a second click with the same props sends nothing. *)
Theorem second_click_sends_nothing (p : Props) (s : State) :
  snd (addToCart p (fst (addToCart p s))) = [].
Proof.
  destruct (isValid p) eqn:V, (isLoading s) eqn:L;
    unfold addToCart; rewrite ?V, ?L; cbn [negb orb fst snd isLoading];
    rewrite ?V, ?L; cbn [negb orb fst snd]; reflexivity.
Qed.

End ButtonFacts.

Section UrlFacts.

Import ProductCustomizer.

Lemma substring_all s : String.substring 0 (String.length s) s = s.
Proof. induction s as [|c s IH]; simpl; [reflexivity|now rewrite IH]. Qed.

(** X13. [buildServerUrl] gives null for a missing or empty path.  For any other
    path it gives a URL under [API_BASE] that the cart button accepts as a
    server URL, and a path with one leading slash gives the same URL as
    the path without it. *)
Theorem buildServerUrl_joins_once (path : string) :
  path <> ""%string -> Js.startsWith "/" path = false ->
  buildServerUrl (Some path) = Some (API_BASE ++ "/" ++ path)%string
  /\ buildServerUrl (Some ("/" ++ path)%string) = buildServerUrl (Some path)
  /\ Js.startsWith "blob:" (API_BASE ++ "/" ++ path) = false
  /\ buildServerUrl None = None /\ buildServerUrl (Some ""%string) = None.
Proof.
  intros Ne Sl.
  assert (E : buildServerUrl (Some path) = Some (API_BASE ++ "/" ++ path)%string).
  { unfold buildServerUrl. destruct path as [|c path]; [congruence|].
    cbn [Js.str_nonempty negb]. now rewrite Sl. }
  split; [exact E|]. split; [|split; [|split; reflexivity]].
  - rewrite E. unfold buildServerUrl.
    cbn [append Js.str_nonempty negb Js.startsWith String.prefix String.length].
    destruct (Ascii.ascii_dec _ _) as [_|N]; [|now elim N].
    replace (String.prefix "" path) with true by (now destruct path).
    replace (S (String.length path) - 1)%nat with (String.length path) by lia.
    cbn [substring]. now rewrite substring_all.
  - unfold Js.startsWith. reflexivity.
Qed.

End UrlFacts.

(** ** The theorems at work on concrete sessions and values *)

Section SessionExamples.

Import ProductCustomizer Invariants.
Local Open Scope string_scope.

Lemma single_call_in_flight_witness :
  let w := run Scenarios.upload_headers_in initialWorld in
  let c := {| origin := FromUpload; stage := AwaitBlob; signal := 0;
              aborted := false |} in
  calls w = [c] /\ abortControllerRef (refs w) = Some (signal c).
Proof.
  intros w c. split; [reflexivity|].
  destruct (single_call_in_flight w) as (_ & A).
  - exists Scenarios.upload_headers_in. reflexivity.
  - apply (A c). left. reflexivity.
Defined.

Lemma loading_flags_track_request_witness :
  let w := run Scenarios.enhance_body_pending initialWorld in
  (loadingEnhance (st w) = true
   <-> exists c, calls w = [c] /\ origin c = FromEnhance)
  /\ (loadingRemoveBg (st w) = true ->
      exists c, calls w = [c] /\ origin c <> FromEnhance).
Proof.
  intros w. destruct (loading_flags_track_request w) as (A & B & _).
  - exists Scenarios.enhance_body_pending. reflexivity.
  - split; [exact A|exact B].
Defined.

Lemma replaced_request_lowers_flag_witness :
  let w := run [Upload "blob:a" (Some "A")] initialWorld in
  let w' := step w (Upload "blob:b" (Some "B")) in
  loadingRemoveBg (st w) = true /\ calls w' = [request FromUpload 1]
  /\ loadingRemoveBg (st w') = false.
Proof.
  intros w w'. split; [reflexivity|]. split; [reflexivity|].
  apply (replaced_request_lowers_flag w (Upload "blob:b" (Some "B"))
           (request FromUpload 0) (request FromUpload 1)).
  - exists [Upload "blob:a" (Some "A")]. reflexivity.
  - reflexivity.
  - discriminate.
  - reflexivity.
  - discriminate.
  - discriminate.
Defined.

Lemma enhance_replaces_pending_request_witness :
  let w := run Scenarios.upload_headers_in initialWorld in
  let w' := step w Enhance in
  calls w' = [request FromEnhance 1]
  /\ loadingEnhance (st w') = true /\ loadingRemoveBg (st w') = false
  /\ fetches (log w')
     = [Fetch REMOVE_BG_ENDPOINT "A" 0; Fetch ENHANCE_ENDPOINT "A" 1].
Proof.
  intros w w'.
  destruct (enhance_replaces_pending_request w "A")
    as (A & _ & B & C & _ & D).
  - exists Scenarios.upload_headers_in. reflexivity.
  - reflexivity.
  - reflexivity.
  - split; [exact A|split; [exact B|split; [exact C|exact D]]].
Defined.

Lemma stop_cancels_processing_witness :
  let w := run Scenarios.upload_headers_in initialWorld in
  let w' := step w CancelProcessing in
  calls w' = []
  /\ loadingRemoveBg (st w') = false /\ loadingEnhance (st w') = false
  /\ step w' (BodyRead 0 "A-nobg") = w'.
Proof.
  intros w w'.
  destruct (stop_cancels_processing w) as (A & B & C & _ & _ & _ & D).
  - exists Scenarios.upload_headers_in. reflexivity.
  - split; [exact A|split; [exact B|split; [exact C|exact (D 0%nat "A-nobg")]]].
Defined.

Lemma clear_keeps_request_running_witness :
  let w := run Scenarios.enhance_body_pending initialWorld in
  let w' := step w ClearDesign in
  imageUrl (st w') = None /\ calls w' = calls w
  /\ loadingEnhance (st w') = true.
Proof.
  intros w w'.
  destruct (clear_keeps_request_running w)
    as ((A & _) & _ & B & _ & C & _).
  - exists Scenarios.enhance_body_pending. reflexivity.
  - split; [exact A|split; [exact B|exact C]].
Defined.

Lemma cleared_design_returns_with_late_answer_witness :
  let w := run Scenarios.enhance_body_pending initialWorld in
  let w' := step (step w ClearDesign) (BodyRead 0 "A+") in
  imageUrl (st w') = Some "blob:0" /\ currentImageBlob (st w') = Some "A+"
  /\ originalImageUrl (st w') = None /\ calls w' = [].
Proof.
  intros w w'.
  destruct (cleared_design_returns_with_late_answer w
              {| origin := FromEnhance; stage := AwaitBlob; signal := 0;
                 aborted := false |} "A+")
    as (A & B & _ & C & _ & D).
  - exists Scenarios.enhance_body_pending. reflexivity.
  - reflexivity.
  - reflexivity.
  - split; [exact A|split; [exact B|split; [exact C|exact D]]].
Defined.

Lemma toggle_on_requests_missing_image_witness :
  let w := run [ToggleRemoveBg false; Upload "blob:a" (Some "A")]
             initialWorld in
  let w' := step w (ToggleRemoveBg true) in
  fetches (log w) = []
  /\ calls w' = [request FromToggle 0]
  /\ imageUrl (st w') = Some "blob:a"
  /\ fetches (log w') = [Fetch REMOVE_BG_ENDPOINT "A" 0].
Proof.
  intros w w'. split; [reflexivity|].
  destruct (toggle_on_requests_missing_image w "A")
    as (A & _ & B & _ & _ & _ & C).
  - exists [ToggleRemoveBg false; Upload "blob:a" (Some "A")]. reflexivity.
  - reflexivity.
  - reflexivity.
  - split; [exact A|split; [exact B|exact C]].
Defined.


Lemma app_sizes_and_quantity_witness :
  let a := App.run [App.Session (Upload "blob:a" (Some "A"));
                    App.Resize SizeControls.IncW;
                    App.Preset 4 6;
                    App.Quantity QuantityControl.Minus] App.initial in
  SizeControls.in_range (width (st (App.session a)))
  /\ SizeControls.in_range (height (st (App.session a)))
  /\ (1 <= App.quantity a)%Z.
Proof.
  intros a. destruct (app_sizes_and_quantity a) as (A & B & _ & _ & C).
  - exists [App.Session (Upload "blob:a" (Some "A"));
            App.Resize SizeControls.IncW;
            App.Preset 4 6;
            App.Quantity QuantityControl.Minus]. reflexivity.
  - split; [exact A|split; [exact B|exact C]].
Defined.

Lemma app_cart_button_witness :
  let a := App.run (map App.Session Scenarios.upload_processed)
             App.initial in
  AddToCartButton.isValid (App.cartProps (Js.Num 42) a) = true.
Proof.
  intros a. destruct (app_cart_button a (Js.Num 42)) as (A & _).
  - exists (map App.Session Scenarios.upload_processed). reflexivity.
  - rewrite A. reflexivity.
Defined.

Lemma buildServerUrl_joins_once_witness :
  buildServerUrl (Some "uploads/p1.png") = Some Scenarios.P1
  /\ buildServerUrl (Some "/uploads/p1.png") = Some Scenarios.P1.
Proof.
  destruct (buildServerUrl_joins_once "uploads/p1.png") as (A & B & _).
  - discriminate.
  - reflexivity.
  - split; [exact A|]. change ("/uploads/p1.png") with ("/" ++ "uploads/p1.png").
    rewrite B. exact A.
Defined.

End SessionExamples.

Section ControlExamples.

Lemma quantity_row_floor_witness :
  (1 <= QuantityControl.perform QuantityControl.Minus 1)%Z
  /\ QuantityControl.decrement
       (QuantityControl.increment (2 ^ 53 - 1)) = (2 ^ 53 - 1)%Z
  /\ QuantityControl.decrement
       (QuantityControl.increment (2 ^ 53)) = (2 ^ 53 - 1)%Z.
Proof.
  destruct (quantity_row_floor (2 ^ 53 - 1) QuantityControl.Plus)
    as (_ & B & (_ & C) & _).
  - discriminate.
  - destruct (quantity_row_floor 1 QuantityControl.Minus) as (A & _).
    + lia.
    + split; [exact A|]. split; [apply B; reflexivity|exact C].
Defined.

Lemma discount_grows_with_quantity_witness :
  PricePreview.discount (PricePreview.tierFor (inject_Z 14))
  <= PricePreview.discount (PricePreview.tierFor (inject_Z 15)).
Proof.
  destruct (discount_grows_with_quantity 14 15) as (A & _).
  - lia.
  - exact A.
Defined.

Lemma price_between_half_and_full_witness :
  let p := PricePreview.pricing 10 10 true 15 in
  PricePreview.discountedUnitPrice p <= PricePreview.unitPrice p
  /\ 0 <= PricePreview.savings p 15.
Proof.
  intros p.
  destruct (price_between_half_and_full 10 10 15 true) as (_ & (_ & A) & _ & B).
  - discriminate.
  - discriminate.
  - discriminate.
  - split; [exact A|exact B].
Defined.

Lemma free_size_stays_in_range_witness :
  FreeSizeControls.in_range
    (FreeSizeControls.perform FreeSizeControls.Inc 100).
Proof.
  apply (free_size_stays_in_range FreeSizeControls.Inc 100).
  split; discriminate.
Defined.

Lemma free_size_step_round_trip_witness :
  FreeSizeControls.decrement (FreeSizeControls.increment 1) == 1.
Proof.
  destruct (free_size_step_round_trip 1) as (A & _).
  - split; discriminate.
  - exists 100%Z. reflexivity.
  - apply A. discriminate.
Defined.

Lemma crop_stays_inside_image_witness :
  let image := {| ImageCropModal.naturalWidth := 3000;
                  ImageCropModal.naturalHeight := 2000;
                  ImageCropModal.width := 600;
                  ImageCropModal.height := 400 |} in
  let c := {| ImageCropModal.x := 100; ImageCropModal.y := 50;
              ImageCropModal.crop_width := 500;
              ImageCropModal.crop_height := 350 |} in
  let r := ImageCropModal.sourceRect image c in
  (ImageCropModal.sx r + ImageCropModal.sw r <= 3000)%Z
  /\ (ImageCropModal.sy r + ImageCropModal.sh r <= 2000)%Z.
Proof.
  intros image c r.
  destruct (crop_stays_inside_image image c)
    as ((_ & _ & A) & (_ & _ & B)); try reflexivity; try discriminate.
  split; [exact A|exact B].
Defined.

Lemma garment_fits_canvas_witness :
  let scale := DesignViewer.baseScale 1000 1000 in
  1000 * scale <= DesignViewer.CANVAS_W * (99 # 100)
  /\ 1000 * scale <= DesignViewer.CANVAS_H * (99 # 100).
Proof.
  intros scale.
  destruct (garment_fits_canvas 1000 1000 500 200) as (_ & A & B & _);
    try reflexivity.
  split; [exact A|exact B].
Defined.

Lemma preset_selects_itself_witness :
  let s := SizePresets.selectPredefined false 4 6
             {| SizeControls.width := 10; SizeControls.height := 10 |} in
  SizeControls.width s == 4 /\ SizeControls.height s == 6
  /\ SizePresets.isSelected 4 6 s = true.
Proof.
  intros s.
  destruct (preset_selects_itself 4 6
              {| SizeControls.width := 10; SizeControls.height := 10 |})
    as (A & B & C & _).
  - split; discriminate.
  - split; discriminate.
  - exists 400%Z. reflexivity.
  - exists 600%Z. reflexivity.
  - split; [exact A|split; [exact B|exact C]].
Defined.

Lemma increment_width_adds_an_inch_witness :
  let s := {| SizeControls.width := 10; SizeControls.height := 5 |} in
  SizeControls.width (SizeControls.incrementWidth s) == 11.
Proof.
  intros s. destruct (increment_width_adds_an_inch s) as (A & _).
  - split; discriminate.
  - split; discriminate.
  - exists 1000%Z. reflexivity.
  - discriminate.
  - split; discriminate.
  - exact A.
Defined.

End ControlExamples.
